(** * Review parser and evaluation store of [app.py]

    A shallow embedding of [parse_review], [save_results] and
    [get_user_progress], with the properties the specification states
    about them.

    Python [str] values are sequences of Unicode code points; the section
    dictionary is a finite map from section names to lists of strings.

    The definitions come first, their properties after. *)

From Stdlib Require Import ZArith NArith Ascii String List Bool Lia.
From Stdlib Require Import DecimalString DecimalN.
From stdpp Require Import gmap strings list fin_maps.

Local Open Scope N_scope.

(** * The model *)

(** ** Python strings *)

Definition char : Type := N.
Definition str : Type := list char.

(** A Rocq string literal read as a Python string of ASCII characters. *)
Definition py (s : string) : str := map N_of_ascii (list_ascii_of_string s).

Definition LF : char := 10.
Definition HYPHEN : char := 45.

(** [Py_UNICODE_ISSPACE]: the characters [str.strip()] removes. *)
Definition isspace (c : char) : bool :=
  ((9 <=? c) && (c <=? 13)) || ((28 <=? c) && (c <=? 32))
  || (c =? 133) || (c =? 160) || (c =? 5760)
  || ((8192 <=? c) && (c <=? 8202))
  || (c =? 8232) || (c =? 8233) || (c =? 8239) || (c =? 8287) || (c =? 12288).

Fixpoint lstrip (s : str) : str :=
  match s with
  | [] => []
  | c :: s' => if isspace c then lstrip s' else s
  end.

Definition rstrip (s : str) : str := rev (lstrip (rev s)).

(** [s.strip()] *)
Definition strip (s : str) : str := rstrip (lstrip s).

(** [s.startswith(p)] *)
Fixpoint startswith (p s : str) : bool :=
  match p, s with
  | [], _ => true
  | _ :: _, [] => false
  | a :: p', b :: s' => (a =? b) && startswith p' s'
  end.

(** [s[1:]] *)
Definition slice_from_1 (s : str) : str := tail s.

(** Truth value of a string or of a list: non-empty. *)
Definition truthy {A} (l : list A) : bool :=
  match l with [] => false | _ :: _ => true end.

(** [s.split(sep)] for a non-empty separator: a left-to-right scan that cuts
    at every occurrence of [sep] and resumes after it.  [skip] counts the
    characters of a separator still to be passed over, [cur] holds the
    current piece in reverse. *)
Fixpoint split_go (sep : str) (skip : nat) (cur : str) (s : str) : list str :=
  match s with
  | [] => [rev cur]
  | c :: s' =>
      match skip with
      | S n => split_go sep n cur s'
      | O =>
          if startswith sep s
          then rev cur :: split_go sep (pred (length sep)) [] s'
          else split_go sep O (c :: cur) s'
      end
  end.

Definition split (sep s : str) : list str := split_go sep O [] s.

(** [sep.join(pieces)] *)
Fixpoint join (sep : str) (pieces : list str) : str :=
  match pieces with
  | [] => []
  | p :: ps =>
      match ps with
      | [] => p
      | _ :: _ => p ++ sep ++ join sep ps
      end
  end.

(** ** Exceptions *)

(** The exceptions that can come up; all derive from [Exception]. *)
Inductive exn :=
| KeyError
| AttributeError
| EmptyDataError
| FileNotFoundError
| ParserError
| OtherError.

Inductive result (A : Type) :=
| Ok (a : A)
| Raise (e : exn).
Arguments Ok {A} a.
Arguments Raise {A} e.

Definition bind {A B} (m : result A) (k : A -> result B) : result B :=
  match m with
  | Ok a => k a
  | Raise e => Raise e
  end.

Notation "'do' x <- m ; k" := (bind m (fun x => k))
  (at level 10, x name, m at level 100, k at level 200).

(** [try: body except Exception: handler] *)
Definition try_except {A} (body : result A) (handler : exn -> result A)
  : result A :=
  match body with
  | Ok a => Ok a
  | Raise e => handler e
  end.

Fixpoint for_each {A S} (body : S -> A -> result S) (items : list A) (s : S)
  : result S :=
  match items with
  | [] => Ok s
  | x :: items' => do s' <- body s x; for_each body items' s'
  end.

(** ** The fragment of [re] the patterns use

    Literals, the two DOTALL repetitions [.*?] and [.*], one capturing
    group, sequencing, alternation, lookahead and the end anchor. *)

Inductive regex :=
| Lit (s : str)
| DotStarLazy
| DotStarGreedy
| Group (r : regex)
| Seq (r1 r2 : regex)
| Alt (r1 r2 : regex)
| Lookahead (r : regex)
| EndZ.

(** Matcher state: the text still ahead and what group 1 captured. *)
Record mstate := MState { rest : str; grp : option str }.

Fixpoint eat (p s : str) : option str :=
  match p, s with
  | [], _ => Some s
  | _ :: _, [] => None
  | a :: p', b :: s' => if a =? b then eat p' s' else None
  end.

(** [.*?]: try the continuation first, take one more character on failure. *)
Fixpoint lazy_star (k : mstate -> option mstate) (g : option str) (s : str)
  : option mstate :=
  match k (MState s g) with
  | Some m => Some m
  | None =>
      match s with
      | [] => None
      | _ :: s' => lazy_star k g s'
      end
  end.

(** [.*]: take as much as possible, give characters back on failure. *)
Fixpoint greedy_star (k : mstate -> option mstate) (g : option str) (s : str)
  : option mstate :=
  match s with
  | [] => k (MState s g)
  | _ :: s' =>
      match greedy_star k g s' with
      | Some m => Some m
      | None => k (MState s g)
      end
  end.

(** Backtracking matcher in continuation-passing style. *)
Fixpoint run (r : regex) (st : mstate) (k : mstate -> option mstate)
  : option mstate :=
  match r with
  | Lit s =>
      match eat s (rest st) with
      | Some s' => k (MState s' (grp st))
      | None => None
      end
  | DotStarLazy => lazy_star k (grp st) (rest st)
  | DotStarGreedy => greedy_star k (grp st) (rest st)
  | Group r1 =>
      run r1 st (fun st' =>
        k (MState (rest st')
             (Some (take (length (rest st) - length (rest st')) (rest st)))))
  | Seq r1 r2 => run r1 st (fun st' => run r2 st' k)
  | Alt r1 r2 =>
      match run r1 st k with
      | Some m => Some m
      | None => run r2 st k
      end
  | Lookahead r1 =>
      match run r1 st Some with
      | Some st' => k (MState (rest st) (grp st'))
      | None => None
      end
  | EndZ =>
      match rest st with
      | [] => k st
      | _ :: _ => None
      end
  end.

(** [re.search(pattern, text, re.DOTALL)]: the leftmost start that matches. *)
Fixpoint search (r : regex) (text : str) : option mstate :=
  match run r (MState text None) Some with
  | Some m => Some m
  | None =>
      match text with
      | [] => None
      | _ :: text' => search r text'
      end
  end.

(** [m.group(1).strip()]; a group that took no part in the match is [None],
    which has no [strip]. *)
Definition group1_strip (m : mstate) : result str :=
  match grp m with
  | Some g => Ok (strip g)
  | None => Raise AttributeError
  end.

(** ** [parse_review] *)

(** The shape shared by the first three patterns:
    [marker(.*?)(?=next|\Z)]. *)
Definition section_re (marker next : str) : regex :=
  Seq (Lit marker) (Seq (Group DotStarLazy) (Lookahead (Alt (Lit next) EndZ))).

Definition summary_re : regex :=
  section_re (py "**Summary**") (py "**Strengths**").

Definition strengths_re : regex :=
  section_re (py "**Strengths**") (py "**Weaknesses**").

Definition weaknesses_re : regex :=
  section_re (py "**Weaknesses**") (py "**Questions**").

Definition questions_re : regex :=
  Seq (Lit (py "**Questions**")) (Group DotStarGreedy).

(** Values a review text can be: what [json.load] produces. *)
#[warnings="-register-all"]
Inductive value :=
| VNone
| VBool (b : bool)
| VInt (z : Z)
| VFloat (bits : N)
| VStr (s : str)
| VList (l : list value)
| VDict (d : list (str * value)).

Definition isinstance_str (v : value) : bool :=
  match v with VStr _ => true | _ => false end.

Definition getitem (d : gmap string (list str)) (key : string)
  : result (list str) :=
  match d !! key with
  | Some v => Ok v
  | None => Raise KeyError
  end.

(** One pass of the inner loop over [raw_points]. *)
Definition clean_step (cleaned_points : list str) (point : str) : list str :=
  let cleaned := strip point in
  let cleaned :=
    if startswith [HYPHEN] cleaned then strip (slice_from_1 cleaned)
    else cleaned in
  if truthy cleaned then cleaned_points ++ [cleaned] else cleaned_points.

(** The body of [if match:] for one section, from [content] on. *)
Definition points_of (content : str) : list str :=
  let raw_points := split [LF; HYPHEN] content in
  fold_left clean_step raw_points [].

Definition section_step (sections : gmap string (list str))
    (item : option mstate * string) : result (gmap string (list str)) :=
  match fst item with
  | Some m =>
      do content <- group1_strip m;
      Ok (<[snd item := points_of content]> sections)
  | None => Ok sections
  end.

Definition not_available : gmap string (list str) :=
  <["Summary" := [py "Not Available"]]>
    (<["Strengths" := []]> (<["Weaknesses" := []]> (<["Questions" := []]> ∅))).

Definition empty_sections : gmap string (list str) :=
  <["Summary" := []]>
    (<["Strengths" := []]> (<["Weaknesses" := []]> (<["Questions" := []]> ∅))).

Definition parse_str (review_text : str) : result (gmap string (list str)) :=
  let sections := empty_sections in
  let summary_match := search summary_re review_text in
  let strengths_match := search strengths_re review_text in
  let weaknesses_match := search weaknesses_re review_text in
  let questions_match := search questions_re review_text in
  do sections <-
    match summary_match with
    | Some m =>
        do g <- group1_strip m;
        if truthy g then
          do l <- getitem sections "Summary";
          Ok (<["Summary" := l ++ [g]]> sections)
        else Ok sections
    | None => Ok sections
    end;
  for_each section_step
    [(strengths_match, "Strengths"%string);
     (weaknesses_match, "Weaknesses"%string);
     (questions_match, "Questions"%string)]
    sections.

Definition parse_review (review_text : value)
  : result (gmap string (list str)) :=
  match review_text with
  | VStr text => parse_str text
  | _ => Ok not_available
  end.

(** ** Sections and their contents *)

(** The four sections in the parser's fixed order. *)
Inductive section := Summary | Strengths | Weaknesses | Questions.

Definition name (sec : section) : string :=
  match sec with
  | Summary => "Summary"
  | Strengths => "Strengths"
  | Weaknesses => "Weaknesses"
  | Questions => "Questions"
  end.

Definition marker (sec : section) : str :=
  py ("**" ++ name sec ++ "**").

Definition next_section (sec : section) : option section :=
  match sec with
  | Summary => Some Strengths
  | Strengths => Some Weaknesses
  | Weaknesses => Some Questions
  | Questions => None
  end.

Definition pattern (sec : section) : regex :=
  match sec with
  | Summary => summary_re
  | Strengths => strengths_re
  | Weaknesses => weaknesses_re
  | Questions => questions_re
  end.

(** [re.search(pattern, text, re.DOTALL)] followed by [.group(1)]. *)
Definition section_content (sec : section) (text : str) : option str :=
  match search (pattern sec) text with
  | Some m => grp m
  | None => None
  end.

(** [m] occurs in [text]. *)
Definition occurs (m text : str) : Prop :=
  exists pre post, text = pre ++ m ++ post.

(** [text] is [pre ++ m ++ post] and no occurrence of [m] starts earlier. *)
Definition first_at (m pre post text : str) : Prop :=
  text = pre ++ m ++ post /\
  forall pre' post', text = pre' ++ m ++ post' -> (length pre <= length pre')%nat.

(** Two direct functions describe the search: [find_after] gives the text
    that follows the leftmost marker, [span_until] cuts a text at the first
    place where a marker starts. *)
Fixpoint find_after (m text : str) : option str :=
  match eat m text with
  | Some s' => Some s'
  | None =>
      match text with
      | [] => None
      | _ :: text' => find_after m text'
      end
  end.

Fixpoint span_until (n s : str) : str * str :=
  if startswith n s then ([], s)
  else
    match s with
    | [] => ([], [])
    | c :: s' => (c :: fst (span_until n s'), snd (span_until n s'))
    end.

(** What [parse_review] stores under each key, in terms of the contents. *)
Definition summary_of (text : str) : list str :=
  match section_content Summary text with
  | Some c => if truthy (strip c) then [strip c] else []
  | None => []
  end.

Definition points_in (sec : section) (text : str) : list str :=
  match section_content sec text with
  | Some c => points_of (strip c)
  | None => []
  end.

Definition four_keys : gset string :=
  {[ "Summary"; "Strengths"; "Weaknesses"; "Questions" ]}%string.

(** No trailing whitespace. *)
Definition rstripped (s : str) : Prop :=
  forall u c, s = u ++ [c] -> isspace c = false.

(** ** Points of a section, as the specification words them *)

(** One candidate: strip it; if a leading hyphen remains, drop it and the
    whitespace after it. *)
Definition point_of_candidate (cand : str) : str :=
  let c := strip cand in
  if startswith [HYPHEN] c then lstrip (tail c) else c.

(** Split on newline-hyphen, clean every candidate, drop the empty ones. *)
Definition candidates_to_points (content : str) : list str :=
  List.filter truthy (map point_of_candidate (split [LF; HYPHEN] content)).

(** ** Reviews used as examples *)

(** The review of the specification's worked example. *)
Definition example_review : str :=
  py "**Summary**" ++ [LF] ++ py "Good paper." ++ [LF]
  ++ py "**Strengths**" ++ [LF] ++ py "- clear writing" ++ [LF]
  ++ py "- solid experiments" ++ [LF]
  ++ py "**Weaknesses**" ++ [LF] ++ py "- too long" ++ [LF]
  ++ py "**Questions**" ++ [LF] ++ py "Why not compare to X?".

(** A review whose first strength is itself a hyphenated item. *)
Definition nested_hyphen_review : str :=
  py "**Strengths**" ++ [LF] ++ py "- - a".

(** A review with a summary and weaknesses but no strengths. *)
Definition no_strengths_review : str :=
  py "**Summary**" ++ [LF] ++ py "Good." ++ [LF]
  ++ py "**Weaknesses**" ++ [LF] ++ py "- too long".

(** * Evaluation store *)

(** A cell of a pandas table. *)
Inductive cell :=
| CStr (s : str)
| CInt (z : Z)
| CFloat (bits : N)
| CBool (b : bool)
| CNaN.

(** A table: column labels and rows, one cell per column. *)
Record DataFrame := { columns : list string; rows : list (list cell) }.

(** The dictionary built on submission; floats by their binary64 bits. *)
Record RatingRecord := {
  timestamp : str;
  user : str;
  paper_id : str;
  review_type : str;
  reviewer_confidence : N;
  review_thoroughness : N;
  constructiveness : N;
  helpfulness : N
}.

Definition record_columns : list string :=
  ["timestamp"; "user"; "paper_id"; "review_type"; "reviewer_confidence";
   "review_thoroughness"; "constructiveness"; "helpfulness"]%string.

Definition record_row (record : RatingRecord) : list cell :=
  [CStr (timestamp record); CStr (user record); CStr (paper_id record);
   CStr (review_type record); CFloat (reviewer_confidence record);
   CFloat (review_thoroughness record); CFloat (constructiveness record);
   CFloat (helpfulness record)].

(** [pd.DataFrame([record])] *)
Definition frame_of_record (record : RatingRecord) : DataFrame :=
  {| columns := record_columns; rows := [record_row record] |}.

(** The cell of [row] under label [c]; missing labels read as NaN. *)
Fixpoint get_cell (cols : list string) (row : list cell) (c : string) : cell :=
  match cols, row with
  | k :: cols', x :: row' => if String.eqb k c then x else get_cell cols' row' c
  | _, _ => CNaN
  end.

Definition has_column (df : DataFrame) (c : string) : bool :=
  existsb (String.eqb c) (columns df).

Definition reindex (cols : list string) (df : DataFrame) : list (list cell) :=
  map (fun row => map (get_cell (columns df) row) cols) (rows df).

(** [pd.concat([a, b], ignore_index=True)]: the union of the columns, the
    rows of [a] followed by the rows of [b].  Cells are kept as they are:
    the change of an integer column to floats, which pandas makes when the
    other table lacks that column, is left out; it never reaches a column
    that both tables have. *)
Definition concat (a b : DataFrame) : DataFrame :=
  let cols :=
    columns a ++ List.filter (fun c => negb (has_column a c)) (columns b) in
  {| columns := cols; rows := reindex cols a ++ reindex cols b |}.

(** [df.empty] *)
Definition df_empty (df : DataFrame) : bool :=
  negb (truthy (columns df)) || negb (truthy (rows df)).

(** [df[c]] *)
Definition getcol (df : DataFrame) (c : string) : result (list cell) :=
  if has_column df c
  then Ok (map (fun row => get_cell (columns df) row c) (rows df))
  else Raise KeyError.

(** [cell == user] for a string [user]. *)
Definition cell_eq_str (user : str) (x : cell) : bool :=
  match x with
  | CStr s => bool_decide (s = user)
  | _ => false
  end.

(** [df[mask]] *)
Definition select_rows (mask : list bool) (df : DataFrame) : DataFrame :=
  {| columns := columns df;
     rows := map snd (List.filter fst (combine mask (rows df))) |}.

(** The CSV reader and writer of pandas, and what a file holds. *)
Class CsvCodec := {
  file : Type;
  to_csv : DataFrame -> file;
  read_csv : file -> result DataFrame
}.

(** The results path: absent, or a file. *)
Definition store `{CsvCodec} : Type := option file.

Definition save_results `{CsvCodec} (results_path : store)
    (record : RatingRecord) : result store :=
  let new_data := frame_of_record record in
  do combined_df <-
    match results_path with
    | Some f =>
        do results_df <- read_csv f;
        Ok (concat results_df new_data)
    | None => Ok new_data
    end;
  Ok (Some (to_csv combined_df)).

Definition get_user_progress `{CsvCodec} (results_path : store) (user : str)
  : result Z :=
  match results_path with
  | None => Ok 0%Z
  | Some f =>
      try_except
        (do results_df <- read_csv f;
         if df_empty results_df then Ok 0%Z
         else
           do col <- getcol results_df "user";
           let user_reviews :=
             select_rows (map (cell_eq_str user) col) results_df in
           Ok (Z.of_nat (length (rows user_reviews))))
        (fun e =>
           match e with
           | EmptyDataError | FileNotFoundError => Ok 0%Z
           | _ => Ok 0%Z
           end)
  end.

(** Submissions one after the other. *)
Definition save_all `{CsvCodec} (results_path : store)
    (records : list RatingRecord) : result store :=
  for_each save_results records results_path.

(** Records of [records] whose user is [u]. *)
Definition count_user (u : str) (records : list RatingRecord) : nat :=
  length (List.filter (fun r => bool_decide (user r = u)) records).

(** A store without records: no file, or a file that loads as a table
    without rows. *)
Definition no_records `{CsvCodec} (s : store) : Prop :=
  s = None \/ exists f df, s = Some f /\ read_csv f = Ok df /\ rows df = [].

(** A store that cannot be used: absent, unreadable, empty, or without a
    user column. *)
Definition unusable `{CsvCodec} (s : store) : Prop :=
  s = None \/
  exists f, s = Some f /\
    ((exists e, read_csv f = Raise e) \/
     (exists df, read_csv f = Ok df /\
        (df_empty df = true \/ has_column df "user" = false))).

Definition user_column (df : DataFrame) : list cell :=
  map (fun row => get_cell (columns df) row "user") (rows df).

(** The invariant of a store built by appends: the file loads as a table
    whose user column lists the users of the records, in order. *)
Definition holds_users `{CsvCodec} (s : store) (records : list RatingRecord) : Prop :=
  match s with
  | None => records = []
  | Some f =>
      exists df, read_csv f = Ok df
        /\ user_column df = map (fun r => CStr (user r)) records
        /\ (records <> [] -> has_column df "user" = true)
  end.

(** A codec that keeps the table itself. *)
Definition table_codec : CsvCodec :=
  {| file := DataFrame; to_csv := fun df => df; read_csv := fun f => Ok f |}.

(** A codec whose reader rejects every file as empty. *)
Definition failing_codec : CsvCodec :=
  {| file := str;
     to_csv := fun _ => [];
     read_csv := fun _ => Raise EmptyDataError |}.

(** Two annotators and three submissions. *)
Definition rating (who paper : string) : RatingRecord :=
  {| timestamp := py "2025-01-01T10:00:00"; user := py who;
     paper_id := py paper; review_type := py "human";
     reviewer_confidence := 4615063718147915776;
     review_thoroughness := 4615063718147915776;
     constructiveness := 4616189618054758400;
     helpfulness := 4617315517961601024 |}.

(** * The rating form and the page flow *)

(** What [display_rating_form] sends to the page, in order. Every number
    input has [min_value=0.0], [max_value=5.0] and [step=0.1]. *)
Inductive event :=
| Markdown (body : str)
| NumberInput (label : str) (key : str).

(** [f"- {point}"] *)
Definition bullet (point : str) : str := py "- " ++ point.

(** The [if review_data.get(section_name):] block of one section. *)
Definition display_section (review_data : gmap string (list str))
    (section_name : string) : list event :=
  match review_data !! section_name with
  | Some (point :: points) =>
      Markdown (py ("**" ++ section_name ++ "**"))
      :: map (fun point => Markdown (bullet point)) (point :: points)
  | _ => []
  end.

Definition display_rating_form (review_data : gmap string (list str))
    (review_key_prefix : str) : list event :=
  match review_data !! "Summary"%string with
  | Some (summary :: _) => [Markdown (py "**Summary**"); Markdown summary]
  | _ => []
  end
  ++ flat_map (display_section review_data)
       ["Strengths"; "Weaknesses"; "Questions"]%string
  ++ [Markdown (py "---");
      Markdown (py "**Overall Rating**");
      NumberInput (py "Reviewer Confidence")
        (review_key_prefix ++ py "_confidence");
      NumberInput (py "Constructiveness")
        (review_key_prefix ++ py "_constructiveness");
      NumberInput (py "Review Thoroughness")
        (review_key_prefix ++ py "_thoroughness");
      NumberInput (py "Helpfulness")
        (review_key_prefix ++ py "_helpfulness")].

(** The keys of the number inputs among some events. *)
Definition input_keys (events : list event) : list str :=
  flat_map (fun e => match e with
                     | NumberInput _ key => [key]
                     | Markdown _ => []
                     end) events.

(** The markdown bodies among some events. *)
Definition markdown_bodies (events : list event) : list str :=
  flat_map (fun e => match e with
                     | Markdown body => [body]
                     | NumberInput _ _ => []
                     end) events.

(** [score_keys] of [check_if_all_rated]. *)
Definition score_keys (review_key_prefix : str) : list str :=
  [review_key_prefix ++ py "_confidence";
   review_key_prefix ++ py "_thoroughness";
   review_key_prefix ++ py "_constructiveness";
   review_key_prefix ++ py "_helpfulness"].

(** [x == 0.0] on the bits of a binary64 float: plus or minus zero. *)
Definition float_is_zero (bits : N) : bool :=
  (bits =? 0) || (bits =? 9223372036854775808).

(** [st.session_state[key]] for the score inputs, floats by their bits. *)
Definition session_getitem (session_state : gmap str N) (key : str)
  : result N :=
  match session_state !! key with
  | Some v => Ok v
  | None => Raise KeyError
  end.

(** The loop of [check_if_all_rated] over the remaining keys. *)
Fixpoint all_rated_from (session_state : gmap str N) (keys : list str)
  : result bool :=
  match keys with
  | [] => Ok true
  | key :: keys' =>
      do v <- session_getitem session_state key;
      if float_is_zero v then Ok false
      else all_rated_from session_state keys'
  end.

Definition check_if_all_rated (session_state : gmap str N)
    (review_key_prefix : str) : result bool :=
  all_rated_from session_state (score_keys review_key_prefix).

(** [str(n)] for a non-negative integer. *)
Definition str_of_int (n : N) : str :=
  py (NilEmpty.string_of_uint (N.to_uint n)).

(** [f"review_{st.session_state.review_index}"] *)
Definition review_key_prefix_of (review_index : N) : str :=
  py "review_" ++ str_of_int review_index.

(** The default of the review lookup. *)
Definition not_found_text (paper_id review_type : str) : str :=
  py "Review for Paper ID " ++ paper_id ++ py " and type " ++ review_type
  ++ py " not found.".

(** [all_reviews.get(paper_id, {}).get(review_type, default)] *)
Definition lookup_review (all_reviews : gmap str (gmap str value))
    (paper_id review_type : str) : value :=
  match all_reviews !! paper_id with
  | Some reviews =>
      match reviews !! review_type with
      | Some review_text => review_text
      | None => VStr (not_found_text paper_id review_type)
      end
  | None => VStr (not_found_text paper_id review_type)
  end.

(** What the page shows for a queue and an index. *)
Inductive page :=
| NoReviews
| AllDone
| Review (paper_id review_type : str).

(** The main display logic: the two guards, then
    [review_queue[review_index]]. *)
Definition current_review (review_queue : list (str * str))
    (review_index : nat) : page :=
  if negb (truthy review_queue) then NoReviews
  else if (length review_queue <=? review_index)%nat then AllDone
  else
    match nth_error review_queue review_index with
    | Some (paper_id, review_type) => Review paper_id review_type
    | None => AllDone
    end.

(** Selecting a user: the index resumes at the stored count. *)
Definition resume `{CsvCodec} (results_path : store) (selected_user : str)
    (review_queue : list (str * str)) : result page :=
  do completed_count <- get_user_progress results_path selected_user;
  Ok (current_review review_queue (Z.to_nat completed_count)).

(** The result of pressing the submit button. *)
Inductive outcome `{CsvCodec} :=
| Rejected
| Saved (results_path : store) (review_index : N).

(** The [if submitted:] block; [now] is [datetime.now().isoformat()]. *)
Definition on_submit `{CsvCodec} (session_state : gmap str N)
    (review_index : N) (results_path : store)
    (now selected_user paper_id review_type : str) : result outcome :=
  let review_key_prefix := review_key_prefix_of review_index in
  do rated <- check_if_all_rated session_state review_key_prefix;
  if negb rated then Ok Rejected
  else
    do confidence <-
      session_getitem session_state (review_key_prefix ++ py "_confidence");
    do thoroughness <-
      session_getitem session_state (review_key_prefix ++ py "_thoroughness");
    do constructive <-
      session_getitem session_state
        (review_key_prefix ++ py "_constructiveness");
    do helpful <-
      session_getitem session_state (review_key_prefix ++ py "_helpfulness");
    let record :=
      {| timestamp := now; user := selected_user; paper_id := paper_id;
         review_type := review_type; reviewer_confidence := confidence;
         review_thoroughness := thoroughness;
         constructiveness := constructive; helpfulness := helpful |} in
    do results_path' <- save_results results_path record;
    Ok (Saved results_path' (review_index + 1)).

(** A string as [parse_review] stores it: not empty, nothing to strip. *)
Definition trimmed (p : str) : Prop := p <> [] /\ strip p = p.

(** ** Inputs used as examples *)

(** A session with the four scores of review 0: 3.5, 3.5, 4.0 and 5.0. *)
Definition rated_session : gmap str N :=
  <[py "review_0_confidence" := 4615063718147915776]>
    (<[py "review_0_thoroughness" := 4615063718147915776]>
      (<[py "review_0_constructiveness" := 4616189618054758400]>
        (<[py "review_0_helpfulness" := 4617315517961601024]> ∅))).

(** Parsed sections holding two strengths only. *)
Definition two_strengths : gmap string (list str) :=
  <["Strengths"%string := [py "clear writing"; py "solid experiments"]]> ∅.

(** A queue of three reviews. *)
Definition three_reviews : list (str * str) :=
  [(py "p1", py "human"); (py "p2", py "human"); (py "p3", py "human")].

(** ** The content of a section, as the specification words it *)

(** The sections after [sec] in the fixed order. *)
Definition later_sections (sec : section) : list section :=
  match sec with
  | Summary => [Strengths; Weaknesses; Questions]
  | Strengths => [Weaknesses; Questions]
  | Weaknesses => [Questions]
  | Questions => []
  end.

(** The first section after [sec], in the fixed order, whose marker the text
    [post] holds. *)
Definition next_present (sec : section) (post : str) : option section :=
  List.find (fun later => truthy (option_list (find_after (marker later) post)))
    (later_sections sec).

(** Everything between the marker and the next marker that is present, or
    the end of the text if no later marker is. *)
Definition claimed_content (sec : section) (text : str) : option str :=
  match find_after (marker sec) text with
  | Some post =>
      Some match next_present sec post with
           | Some later => fst (span_until (marker later) post)
           | None => post
           end
  | None => None
  end.

(** What [parse_review] stores for a section whose content is [content]. *)
Definition stored (sec : section) (content : str) : list str :=
  match sec with
  | Summary => if truthy (strip content) then [strip content] else []
  | _ => points_of (strip content)
  end.

(** ** Readers that behave like the one of pandas *)









(** * Properties *)

(** ** Prefixes and literals *)

Lemma eat_Some p s s' : eat p s = Some s' <-> s = p ++ s'.
Proof.
  revert s. induction p as [|a p IH]; intros [|b s]; simpl.
  - split; congruence.
  - split; congruence.
  - split; [discriminate | intros H; discriminate].
  - destruct (N.eqb_spec a b) as [->|Hne].
    + rewrite IH. split; [intros ->; reflexivity | congruence].
    + split; [discriminate | intros H; congruence].
Qed.

Lemma eat_app p s : eat p (p ++ s) = Some s.
Proof. apply eat_Some. reflexivity. Qed.

Lemma eat_None p s : eat p s = None <-> forall s', s <> p ++ s'.
Proof.
  split.
  - intros H s' Hs. apply eat_Some in Hs. congruence.
  - intros H. destruct (eat p s) as [s'|] eqn:E; [|reflexivity].
    apply eat_Some in E. exfalso. eapply H, E.
Qed.

Lemma startswith_eat p s : startswith p s = bool_decide (is_Some (eat p s)).
Proof.
  revert s. induction p as [|a p IH]; intros [|b s]; simpl; try done.
  destruct (N.eqb_spec a b); simpl; [apply IH | done].
Qed.

Lemma startswith_true p s : startswith p s = true <-> exists s', s = p ++ s'.
Proof.
  rewrite startswith_eat, bool_decide_eq_true. split.
  - intros [s' H]. exists s'. by apply eat_Some.
  - intros [s' ->]. rewrite eat_app. by eexists.
Qed.

Lemma startswith_false p s : startswith p s = false <-> eat p s = None.
Proof.
  rewrite startswith_eat, bool_decide_eq_false. split.
  - intros H. destruct (eat p s); [exfalso; apply H; by eexists | done].
  - intros -> [x H]. discriminate.
Qed.

(** ** What the section patterns match *)

Lemma span_until_app n s : fst (span_until n s) ++ snd (span_until n s) = s.
Proof.
  induction s as [|c s IH]; simpl.
  - destruct (startswith n []); reflexivity.
  - destruct (startswith n (c :: s)); simpl; [reflexivity | by rewrite IH].
Qed.

Lemma span_until_stop n s :
  snd (span_until n s) = [] \/ startswith n (snd (span_until n s)) = true.
Proof.
  induction s as [|c s IH]; simpl.
  - destruct (startswith n []) eqn:E; simpl; auto.
  - destruct (startswith n (c :: s)) eqn:E; simpl; auto.
Qed.

Lemma span_until_shortest n s c1 c2 :
  fst (span_until n s) = c1 ++ c2 -> c2 <> [] ->
  startswith n (c2 ++ snd (span_until n s)) = false.
Proof.
  revert c1. induction s as [|c s IH]; intros c1; simpl.
  - destruct (startswith n []); simpl; intros H; by destruct c1, c2.
  - destruct (startswith n (c :: s)) eqn:E; simpl.
    + intros H; by destruct c1, c2.
    + destruct c1 as [|x c1]; simpl; intros H Hc2.
      * subst c2. simpl. rewrite span_until_app. exact E.
      * injection H as _ H. by apply (IH c1).
Qed.

Lemma span_until_absent n s :
  ~ occurs n s -> span_until n s = (s, []).
Proof.
  induction s as [|c s IH]; intros Hno; simpl.
  - destruct (startswith n []) eqn:E; [|reflexivity].
    apply startswith_true in E as [s' E]. exfalso. apply Hno.
    exists [], s'. exact E.
  - destruct (startswith n (c :: s)) eqn:E.
    + apply startswith_true in E as [s' E]. exfalso. apply Hno.
      exists [], s'. exact E.
    + rewrite IH; [reflexivity|].
      intros (pre & post & ->). apply Hno. by exists (c :: pre), post.
Qed.

(** The continuation the lazy group runs under: the lookahead
    [(?=next|\Z)], with group 1 set to what was consumed from [s0]. *)
Lemma lazy_star_section n s0 pre s g :
  s0 = pre ++ s ->
  lazy_star
    (fun st' =>
       run (Lookahead (Alt (Lit n) EndZ))
         (MState (rest st') (Some (take (length s0 - length (rest st')) s0)))
         Some) g s
  = Some (MState (snd (span_until n s))
            (Some (pre ++ fst (span_until n s)))).
Proof.
  set (K := fun st' : mstate => run _ _ Some).
  assert (HK : forall p t, s0 = p ++ t ->
    K (MState t g) =
    if startswith n t || negb (truthy t)
    then Some (MState t (Some p)) else None).
  { intros p t ->. unfold K. cbn [run rest grp].
    rewrite length_app, Nat.add_sub, take_app_length.
    destruct (eat n t) as [s'|] eqn:E.
    - rewrite (proj2 (startswith_true n t)); [reflexivity|].
      exists s'. by apply eat_Some.
    - rewrite (proj2 (startswith_false n t) E). by destruct t. }
  clearbody K. revert pre.
  induction s as [|c s IH]; intros pre Hs0; cbn [lazy_star span_until];
    rewrite (HK pre _ Hs0).
  - destruct (startswith n []); simpl; by rewrite app_nil_r.
  - destruct (startswith n (c :: s)); simpl.
    + by rewrite app_nil_r.
    + rewrite (IH (pre ++ [c])); [|by rewrite <- app_assoc].
      by rewrite <- app_assoc.
Qed.

Lemma run_section_re m n text :
  run (section_re m n) (MState text None) Some =
  match eat m text with
  | Some s' =>
      Some (MState (snd (span_until n s')) (Some (fst (span_until n s'))))
  | None => None
  end.
Proof.
  unfold section_re. cbn [run rest grp].
  destruct (eat m text) as [s'|]; [|reflexivity].
  apply (lazy_star_section n s' [] s' None). reflexivity.
Qed.

Lemma search_section_re m n text :
  search (section_re m n) text =
  match find_after m text with
  | Some s' =>
      Some (MState (snd (span_until n s')) (Some (fst (span_until n s'))))
  | None => None
  end.
Proof.
  induction text as [|c text IH]; cbn [search find_after];
    rewrite run_section_re.
  - destruct (eat m []); reflexivity.
  - destruct (eat m (c :: text)); [reflexivity | exact IH].
Qed.

(** [.*] under DOTALL with nothing after it takes the whole remainder. *)
Lemma greedy_star_all s0 pre s g :
  s0 = pre ++ s ->
  greedy_star
    (fun st' =>
       Some (MState (rest st')
               (Some (take (length s0 - length (rest st')) s0)))) g s
  = Some (MState [] (Some s0)).
Proof.
  revert pre. induction s as [|c s IH]; intros pre ->.
  - simpl. rewrite app_nil_r.
    replace (length pre - 0)%nat with (length pre) by lia.
    by rewrite firstn_all.
  - cbn [greedy_star].
    rewrite (IH (pre ++ [c])); [reflexivity | by rewrite <- app_assoc].
Qed.

Lemma search_questions_re text :
  search questions_re text =
  match find_after (py "**Questions**") text with
  | Some s' => Some (MState [] (Some s'))
  | None => None
  end.
Proof.
  assert (Hrun : forall t,
    run questions_re (MState t None) Some =
    match eat (py "**Questions**") t with
    | Some s' => Some (MState [] (Some s'))
    | None => None
    end).
  { intros t. unfold questions_re. cbn [run rest grp].
    destruct (eat (py "**Questions**") t) as [s'|]; [|reflexivity].
    apply (greedy_star_all s' [] s' None). reflexivity. }
  induction text as [|c text IH]; cbn [search find_after]; rewrite Hrun.
  - destruct (eat _ []); reflexivity.
  - destruct (eat _ (c :: text)); [reflexivity | exact IH].
Qed.

(** ** The leftmost occurrence of a marker *)

Lemma find_after_None m text : find_after m text = None -> ~ occurs m text.
Proof.
  induction text as [|c text IH]; cbn [find_after].
  - destruct (eat m []) eqn:E; [discriminate|]. intros _ (pre & post & H).
    destruct pre; [|discriminate]. simpl in H.
    eapply eat_None in E. apply E. exact H.
  - destruct (eat m (c :: text)) eqn:E; [discriminate|].
    intros Hf (pre & post & H). destruct pre as [|x pre]; simpl in H.
    + eapply eat_None in E. apply E. exact H.
    + injection H as _ H. apply (IH Hf). by exists pre, post.
Qed.

Lemma find_after_Some m text post :
  find_after m text = Some post -> exists pre, first_at m pre post text.
Proof.
  induction text as [|c text IH]; cbn [find_after].
  - destruct (eat m []) eqn:E; [|discriminate]. intros [= ->].
    apply eat_Some in E. exists []. split; [exact E | simpl; lia].
  - destruct (eat m (c :: text)) eqn:E.
    + intros [= ->]. apply eat_Some in E. exists [].
      split; [exact E | simpl; lia].
    + intros Hf. destruct (IH Hf) as (pre & -> & Hleft).
      exists (c :: pre). split; [reflexivity|].
      intros [|x pre'] post' H; simpl in H.
      * eapply eat_None in E. exfalso. apply E. exact H.
      * injection H as _ H. simpl. apply Hleft in H. lia.
Qed.


(** ** The content of a section *)

Lemma section_content_eq sec text :
  section_content sec text =
  match find_after (marker sec) text with
  | Some post =>
      Some match next_section sec with
           | Some nx => fst (span_until (marker nx) post)
           | None => post
           end
  | None => None
  end.
Proof.
  unfold section_content.
  destruct sec; cbn [pattern next_section];
    [unfold summary_re | unfold strengths_re | unfold weaknesses_re | ];
    rewrite ?search_section_re, ?search_questions_re;
    match goal with
    | |- context [find_after ?m text] =>
        change m with (marker Summary) || change m with (marker Strengths)
        || change m with (marker Weaknesses) || change m with (marker Questions)
    end;
    by destruct (find_after _ text).
Qed.

Lemma search_pattern sec text :
  match search (pattern sec) text with
  | Some m => exists c, grp m = Some c /\ section_content sec text = Some c
  | None => section_content sec text = None
  end.
Proof.
  unfold section_content.
  destruct (search (pattern sec) text) as [m|] eqn:E; [|reflexivity].
  assert (H : is_Some (grp m)).
  { destruct sec; cbn [pattern] in E;
      [unfold summary_re in E | unfold strengths_re in E
       | unfold weaknesses_re in E | ];
      rewrite ?search_section_re, ?search_questions_re in E;
      destruct (find_after _ text); try discriminate;
      injection E as <-; by eexists. }
  destruct H as [c Hc]. by exists c.
Qed.

Lemma parse_str_lookup text :
  exists d, parse_str text = Ok d
    /\ dom d = four_keys
    /\ d !! "Summary"%string = Some (summary_of text)
    /\ d !! "Strengths"%string = Some (points_in Strengths text)
    /\ d !! "Weaknesses"%string = Some (points_in Weaknesses text)
    /\ d !! "Questions"%string = Some (points_in Questions text).
Proof.
  unfold parse_str, summary_of, points_in.
  pose proof (search_pattern Summary text) as H1.
  pose proof (search_pattern Strengths text) as H2.
  pose proof (search_pattern Weaknesses text) as H3.
  pose proof (search_pattern Questions text) as H4.
  cbn [pattern] in H1, H2, H3, H4.
  destruct (search summary_re text) as [m1|];
    [destruct H1 as (c1 & G1 & ->) | rewrite H1];
  (destruct (search strengths_re text) as [m2|];
    [destruct H2 as (c2 & G2 & ->) | rewrite H2]);
  (destruct (search weaknesses_re text) as [m3|];
    [destruct H3 as (c3 & G3 & ->) | rewrite H3]);
  (destruct (search questions_re text) as [m4|];
    [destruct H4 as (c4 & G4 & ->) | rewrite H4]);
  unfold section_step, group1_strip, getitem, empty_sections;
  cbn [for_each bind fst snd];
  rewrite ?G1, ?G2, ?G3, ?G4; cbn [bind];
  try destruct (truthy (strip c1)); cbn [bind];
  rewrite ?lookup_insert_eq; cbn [bind app];
  (eexists; split; [reflexivity|]);
  (split; [unfold four_keys; rewrite !dom_insert_L; set_solver
          | repeat split; by simplify_map_eq]).
Qed.

(** ** Stripping *)

Lemma lstrip_suffix s : exists v, s = v ++ lstrip s.
Proof.
  induction s as [|c s [v IH]]; simpl.
  - by exists [].
  - destruct (isspace c); [exists (c :: v); simpl; congruence | by exists []].
Qed.

Lemma lstrip_head s c w : lstrip s = c :: w -> isspace c = false.
Proof.
  induction s as [|x s IH]; simpl; [discriminate|].
  destruct (isspace x) eqn:E; [exact IH | congruence].
Qed.

Lemma lstrip_spaces s : forallb isspace s = true -> lstrip s = [].
Proof.
  induction s as [|c s IH]; simpl; [reflexivity|].
  destruct (isspace c); simpl; [exact IH | discriminate].
Qed.

Lemma strip_spaces s : forallb isspace s = true -> strip s = [].
Proof. intros H. unfold strip. by rewrite lstrip_spaces. Qed.

Lemma rstrip_rstripped s : rstripped (rstrip s).
Proof.
  intros u c H. unfold rstrip in H.
  apply (f_equal (@rev char)) in H.
  rewrite rev_involutive, rev_app_distr in H. simpl in H.
  eapply lstrip_head, H.
Qed.

Lemma strip_rstripped s : rstripped (strip s).
Proof. apply rstrip_rstripped. Qed.

Lemma rstrip_id s : rstripped s -> rstrip s = s.
Proof.
  intros H. unfold rstrip. destruct (rev s) as [|c w] eqn:E.
  - apply (f_equal (@rev char)) in E. rewrite rev_involutive in E. by subst.
  - simpl. rewrite (H (rev w) c).
    + rewrite <- E. apply rev_involutive.
    + apply (f_equal (@rev char)) in E. by rewrite rev_involutive in E.
Qed.

Lemma rstripped_suffix v t : rstripped (v ++ t) -> rstripped t.
Proof. intros H u c ->. apply (H (v ++ u) c). by rewrite app_assoc. Qed.

(** After a stripped candidate loses its first character, only the left
    side can still carry whitespace. *)
Lemma strip_after_first h t : rstripped (h :: t) -> strip t = lstrip t.
Proof.
  intros H. unfold strip. apply rstrip_id.
  destruct (lstrip_suffix t) as [v Hv].
  apply (rstripped_suffix (h :: v)). simpl. by rewrite <- Hv.
Qed.

(** ** Cleaning the points *)

Lemma clean_step_eq acc point :
  clean_step acc point =
  acc ++ List.filter truthy [point_of_candidate point].
Proof.
  unfold clean_step, point_of_candidate, slice_from_1.
  pose proof (strip_rstripped point) as Hr.
  destruct (strip point) as [|h t] eqn:E.
  - simpl. by rewrite app_nil_r.
  - cbn [startswith tail]. rewrite andb_true_r.
    destruct (HYPHEN =? h) eqn:Eh.
    + rewrite (strip_after_first h t Hr). cbn [List.filter].
      destruct (truthy (lstrip t)); [reflexivity | by rewrite app_nil_r].
    + reflexivity.
Qed.

Lemma fold_clean_step raw acc :
  fold_left clean_step raw acc =
  acc ++ List.filter truthy (map point_of_candidate raw).
Proof.
  revert acc. induction raw as [|p raw IH]; intros acc; simpl.
  - by rewrite app_nil_r.
  - rewrite IH, clean_step_eq. simpl.
    destruct (truthy (point_of_candidate p)); simpl.
    + by rewrite <- app_assoc.
    + by rewrite app_nil_r.
Qed.

Lemma points_of_eq content : points_of content = candidates_to_points content.
Proof. unfold points_of. by rewrite fold_clean_step. Qed.

(** ** Splitting *)

Lemma split_go_skip sep p cur s :
  split_go sep (length p) cur (p ++ s) = split_go sep O cur s.
Proof. induction p as [|x p IH]; simpl; [reflexivity | exact IH]. Qed.

Lemma split_go_cons sep k cur s : exists p ps, split_go sep k cur s = p :: ps.
Proof.
  revert k cur. induction s as [|c s IH]; intros k cur; simpl.
  - by eexists _, _.
  - destruct k as [|k]; [|apply IH].
    destruct (startswith sep (c :: s)); [by eexists _, _ | apply IH].
Qed.

Lemma join_split_go sep n : forall s cur,
  sep <> [] -> (length s <= n)%nat ->
  join sep (split_go sep O cur s) = rev cur ++ s.
Proof.
  induction n as [|n IH]; intros [|c s] cur Hsep Hlen; simpl in Hlen;
    try lia; cbn [split_go join].
  - by rewrite app_nil_r.
  - by rewrite app_nil_r.
  - destruct (startswith sep (c :: s)) eqn:E.
    + apply startswith_true in E as [s2 E].
      destruct sep as [|x sep']; [done|]. injection E as <- ->.
      cbn [length pred]. rewrite split_go_skip.
      destruct (split_go_cons (c :: sep') O [] s2) as (p & ps & Hp).
      pose proof (IH s2 [] Hsep) as Hj. rewrite Hp in *.
      cbn [join]. cbn [join] in Hj. rewrite Hj.
      * reflexivity.
      * rewrite length_app in Hlen. lia.
    + rewrite IH; [|done|lia]. simpl. by rewrite <- app_assoc.
Qed.

(** Joining the pieces with the separator gives the text back. *)
Lemma join_split sep s : sep <> [] -> join sep (split sep s) = s.
Proof.
  intros Hsep. unfold split.
  by rewrite (join_split_go sep (length s) s []).
Qed.

Example split_two_points :
  split [LF; HYPHEN] (py "- a" ++ [LF] ++ py "- b") = [py "- a"; py " b"].
Proof. reflexivity. Qed.

Example split_empty : split [LF; HYPHEN] [] = [[]].
Proof. reflexivity. Qed.

Example split_trailing_separator :
  split [LF; HYPHEN] (py "a" ++ [LF; HYPHEN]) = [py "a"; []].
Proof. reflexivity. Qed.

(** * The parser's specification *)

(** C1. The specification's worked example: the review with a summary, two
    strengths, one weakness and one question parses into exactly those four
    sequences. *)
Theorem parse_review_example :
  parse_review (VStr example_review) =
  Ok (<["Summary" := [py "Good paper."]]>
       (<["Strengths" := [py "clear writing"; py "solid experiments"]]>
         (<["Weaknesses" := [py "too long"]]>
           (<["Questions" := [py "Why not compare to X?"]]> ∅)))).
Proof. vm_compute. reflexivity. Qed.

Lemma not_str_not_available v :
  isinstance_str v = false -> parse_review v = Ok not_available.
Proof. destruct v; try reflexivity. discriminate. Qed.

Lemma not_available_fields :
  dom not_available = four_keys
  /\ not_available !! "Summary"%string = Some [py "Not Available"]
  /\ not_available !! "Strengths"%string = Some []
  /\ not_available !! "Weaknesses"%string = Some []
  /\ not_available !! "Questions"%string = Some [].
Proof.
  unfold not_available, four_keys. split.
  - rewrite !dom_insert_L. set_solver.
  - repeat split; by simplify_map_eq.
Qed.

(** C2. On every input that is not a string, [parse_review] returns (and
    does not raise) the dictionary whose summary is ["Not Available"] and
    whose strengths, weaknesses and questions are empty. *)
Theorem parse_review_not_str (v : value) :
  isinstance_str v = false ->
  exists d, parse_review v = Ok d
    /\ dom d = four_keys
    /\ d !! "Summary"%string = Some [py "Not Available"]
    /\ d !! "Strengths"%string = Some []
    /\ d !! "Weaknesses"%string = Some []
    /\ d !! "Questions"%string = Some [].
Proof.
  intros Hv. exists not_available. split.
  - by apply not_str_not_available.
  - exact not_available_fields.
Qed.

Lemma parse_review_not_str_witness :
  exists d, parse_review (VInt 42) = Ok d
    /\ dom d = four_keys
    /\ d !! "Summary"%string = Some [py "Not Available"]
    /\ d !! "Strengths"%string = Some []
    /\ d !! "Weaknesses"%string = Some []
    /\ d !! "Questions"%string = Some [].
Proof. apply (parse_review_not_str (VInt 42)). reflexivity. Defined.

(** C3. [parse_review] is total: on every input, a string or not, it
    returns a dictionary (it never raises) that holds exactly the four keys,
    each bound to a sequence. *)
Theorem parse_review_total (v : value) :
  exists d sm st wk qs, parse_review v = Ok d
    /\ dom d = four_keys
    /\ d !! "Summary"%string = Some sm
    /\ d !! "Strengths"%string = Some st
    /\ d !! "Weaknesses"%string = Some wk
    /\ d !! "Questions"%string = Some qs.
Proof.
  destruct (isinstance_str v) eqn:Hv.
  - destruct v; try discriminate. cbn [parse_review].
    destruct (parse_str_lookup s) as (d & ? & ? & ? & ? & ? & ?).
    exists d. eauto 10.
  - rewrite (not_str_not_available v Hv).
    destruct not_available_fields as (? & ? & ? & ? & ?).
    exists not_available. eauto 10.
Qed.

(** C5, as stated, fails: splitting the raw content of the section (the
    text between the markers) and cleaning the candidates yields ["a"] for
    this review, but [parse_review] strips the content before it splits and
    yields ["- a"]. *)
Lemma points_of_raw_content_counterexample :
  section_content Strengths nested_hyphen_review = Some ([LF] ++ py "- - a")
  /\ candidates_to_points ([LF] ++ py "- - a") = [py "a"]
  /\ (exists d, parse_review (VStr nested_hyphen_review) = Ok d
        /\ d !! "Strengths"%string = Some [py "- a"])
  /\ [py "- a"] <> candidates_to_points ([LF] ++ py "- - a").
Proof.
  split; [vm_compute; reflexivity|].
  split; [vm_compute; reflexivity|].
  split.
  - destruct (parse_str_lookup nested_hyphen_review)
      as (d & Hd & _ & _ & Hs & _).
    exists d. split; [exact Hd|]. rewrite Hs. vm_compute. reflexivity.
  - vm_compute. discriminate.
Qed.

Lemma lookup_name_points (d : gmap string (list str)) text sec :
  sec <> Summary ->
  d !! "Strengths"%string = Some (points_in Strengths text) ->
  d !! "Weaknesses"%string = Some (points_in Weaknesses text) ->
  d !! "Questions"%string = Some (points_in Questions text) ->
  d !! name sec = Some (points_in sec text).
Proof. by destruct sec. Qed.

(** C5, amended. When the marker of Strengths, Weaknesses or Questions is
    present, the section's content is first stripped of surrounding
    whitespace and then split on newline-hyphen; each candidate is stripped,
    a remaining leading hyphen and the whitespace after it are dropped,
    empty candidates are discarded and the others keep their order.  A
    content of whitespace only gives no points. *)
Theorem section_points (text : str) (sec : section) (c : str) :
  sec <> Summary ->
  section_content sec text = Some c ->
  exists d, parse_review (VStr text) = Ok d
    /\ d !! name sec = Some (candidates_to_points (strip c))
    /\ (forallb isspace c = true -> d !! name sec = Some []).
Proof.
  intros Hsec Hc. cbn [parse_review].
  destruct (parse_str_lookup text) as (d & Hd & _ & _ & H2 & H3 & H4).
  exists d. split; [exact Hd|].
  rewrite (lookup_name_points d text sec Hsec H2 H3 H4).
  unfold points_in. rewrite Hc, points_of_eq. split; [reflexivity|].
  intros Hsp. by rewrite (strip_spaces c Hsp).
Qed.

Lemma section_points_witness :
  exists d, parse_review (VStr example_review) = Ok d
    /\ d !! "Strengths"%string =
       Some (candidates_to_points
               (strip ([LF] ++ py "- clear writing" ++ [LF]
                       ++ py "- solid experiments" ++ [LF])))
    /\ (forallb isspace ([LF] ++ py "- clear writing" ++ [LF]
                         ++ py "- solid experiments" ++ [LF]) = true ->
        d !! "Strengths"%string = Some []).
Proof.
  apply (section_points example_review Strengths).
  - discriminate.
  - vm_compute. reflexivity.
Defined.

Lemma section_content_absent sec text :
  ~ occurs (marker sec) text -> section_content sec text = None.
Proof.
  intros Hno. rewrite section_content_eq.
  destruct (find_after (marker sec) text) as [post|] eqn:E; [|reflexivity].
  apply find_after_Some in E as (pre & -> & _).
  exfalso. apply Hno. by exists pre, post.
Qed.

(** C6. When a section's marker does not occur in the text, [parse_review]
    returns (without raising) a dictionary in which that section is the
    empty sequence; the summary is also the empty sequence when its marker
    is present but its content is whitespace only. *)
Theorem absent_section_empty (text : str) (sec : section) :
  ~ occurs (marker sec) text \/
  (sec = Summary /\ exists c, section_content Summary text = Some c
                     /\ forallb isspace c = true) ->
  exists d, parse_review (VStr text) = Ok d /\ d !! name sec = Some [].
Proof.
  intros H. cbn [parse_review].
  destruct (parse_str_lookup text) as (d & Hd & _ & H1 & H2 & H3 & H4).
  exists d. split; [exact Hd|].
  unfold summary_of in H1. unfold points_in in H2, H3, H4.
  destruct H as [Hno|(-> & c & Hc & Hsp)].
  - apply section_content_absent in Hno.
    destruct sec; cbn [name]; rewrite Hno in *; assumption.
  - cbn [name]. rewrite H1, Hc. by rewrite (strip_spaces c Hsp).
Qed.

Lemma absent_section_empty_witness :
  exists d,
    parse_review (VStr (py "**Summary**" ++ [LF] ++ py "Good paper.")) = Ok d
    /\ d !! "Weaknesses"%string = Some [].
Proof.
  apply (absent_section_empty
           (py "**Summary**" ++ [LF] ++ py "Good paper.") Weaknesses).
  left. apply find_after_None. vm_compute. reflexivity.
Defined.

(** ** A summary that runs over later sections *)




(** * The store's specification *)

(** ** The user column across appends *)

Lemma has_column_In df c : has_column df c = true <-> In c (columns df).
Proof.
  unfold has_column. rewrite existsb_exists. split.
  - intros (k & Hk & E). apply String.eqb_eq in E. by subst.
  - intros H. exists c. split; [exact H | apply String.eqb_refl].
Qed.

Lemma get_cell_map cols (g : string -> cell) c :
  In c cols -> get_cell cols (map g cols) c = g c.
Proof.
  induction cols as [|k cols IH]; simpl; [done|].
  intros H. destruct (String.eqb_spec k c) as [->|Hne]; [reflexivity|].
  destruct H as [H|H]; [congruence | by apply IH].
Qed.

Lemma concat_has_user a b :
  has_column b "user" = true -> has_column (concat a b) "user" = true.
Proof.
  rewrite !has_column_In. intros Hb. cbn [concat columns].
  apply in_or_app. destruct (has_column a "user") eqn:Ha.
  - left. by apply has_column_In.
  - right. apply filter_In. by rewrite Ha.
Qed.

Lemma user_column_concat a b :
  has_column b "user" = true ->
  user_column (concat a b) = user_column a ++ user_column b.
Proof.
  intros Hb. pose proof (concat_has_user a b Hb) as Hc.
  apply has_column_In in Hc. unfold user_column at 1.
  cbn [concat rows columns] in *. unfold reindex.
  rewrite map_app, !map_map. f_equal;
    apply map_ext; intros row; by rewrite get_cell_map.
Qed.

Lemma select_rows_length (k : list cell -> bool) df :
  length (rows (select_rows (map k (rows df)) df))
  = length (List.filter k (rows df)).
Proof.
  cbn [select_rows rows]. induction (rows df) as [|row l IH]; simpl.
  - reflexivity.
  - destruct (k row); simpl; by rewrite IH.
Qed.

Lemma filter_map_length {A B} (h : A -> B) (k : B -> bool) l :
  length (List.filter k (map h l)) = length (List.filter (fun x => k (h x)) l).
Proof.
  induction l as [|x l IH]; simpl; [reflexivity|].
  destruct (k (h x)); simpl; by rewrite IH.
Qed.

Section Store.
Context `{CsvCodec}.

(** Reading a table that can be used counts the matching user cells. *)
Lemma get_user_progress_count f df u :
  read_csv f = Ok df ->
  (rows df <> [] -> has_column df "user" = true) ->
  get_user_progress (Some f) u
  = Ok (Z.of_nat (length (List.filter (cell_eq_str u) (user_column df)))).
Proof.
  intros Hf Hu. unfold get_user_progress. rewrite Hf. cbn [bind try_except].
  unfold df_empty, user_column.
  destruct (rows df) as [|row l] eqn:Hrows.
  { by rewrite orb_true_r. }
  rewrite <- Hrows in *.
  destruct (columns df) as [|k cols] eqn:Hcols.
  { exfalso. assert (Hc : has_column df "user" = true).
    { apply Hu. by rewrite Hrows. }
    unfold has_column in Hc. by rewrite Hcols in Hc. }
  rewrite <- Hcols in *. rewrite Hcols at 1. rewrite Hrows at 1.
  cbn [truthy negb orb]. unfold getcol.
  rewrite Hu by (by rewrite Hrows). cbn [bind try_except].
  rewrite map_map, select_rows_length, filter_map_length. reflexivity.
Qed.

Lemma get_user_progress_never_raises s u :
  exists n, get_user_progress s u = Ok n.
Proof.
  unfold get_user_progress. destruct s as [f|]; [|by eexists].
  destruct (read_csv f) as [df|e]; cbn [bind try_except].
  - destruct (df_empty df); [by eexists|].
    destruct (getcol df "user"); cbn [bind try_except]; [by eexists|].
    destruct e; by eexists.
  - destruct e; by eexists.
Qed.

(** C8. The count is 0, and nothing is raised, when the results file
    does not exist, when reading it raises any exception (an empty or
    malformed file), when it loads as an empty table, or when the table
    has no user column. *)
Theorem get_user_progress_unusable (s : store) (u : str) :
  unusable s -> get_user_progress s u = Ok 0%Z.
Proof.
  unfold get_user_progress.
  intros [->|(f & -> & [[e Hf]|(df & Hf & [He|Hc])])];
    [reflexivity | | |]; rewrite Hf; cbn [bind try_except].
  - by destruct e.
  - by rewrite He.
  - destruct (df_empty df); [reflexivity|].
    unfold getcol. by rewrite Hc.
Qed.

(** An append reads the existing file first and passes on what the reader
    raises: nothing is written then. *)
Lemma save_results_unreadable f e record :
  read_csv f = Raise e -> save_results (Some f) record = Raise e.
Proof. intros Hf. unfold save_results. by rewrite Hf. Qed.

Lemma holds_users_count s records u :
  holds_users s records ->
  get_user_progress s u = Ok (Z.of_nat (count_user u records)).
Proof.
  destruct s as [f|]; cbn [holds_users].
  - intros (df & Hf & Hcol & Hu).
    rewrite (get_user_progress_count f df u Hf).
    + rewrite Hcol, filter_map_length. reflexivity.
    + intros Hrows. apply Hu. intros ->.
      unfold user_column in Hcol. by destruct (rows df).
  - intros ->. reflexivity.
Qed.

Lemma no_records_holds s : no_records s -> holds_users s [].
Proof.
  intros [->|(f & df & -> & Hf & Hrows)]; cbn [holds_users]; [done|].
  exists df. split; [exact Hf|]. unfold user_column. by rewrite Hrows.
Qed.

End Store.

(** ** Appends when the file keeps the user column

    What pandas writes and reads back is outside [app.py].  Counting needs
    one thing from it: a written table loads again, with the same user
    column.  Other columns may come back with other types. *)

Section UsersKept.
Context `{CsvCodec}.

Hypothesis csv_keeps_users : forall df,
  exists df', read_csv (to_csv df) = Ok df'
    /\ user_column df' = user_column df
    /\ has_column df' "user" = has_column df "user".

Lemma written_holds_users df records :
  user_column df = map (fun r => CStr (user r)) records ->
  has_column df "user" = true ->
  holds_users (Some (to_csv df)) records.
Proof.
  intros Hcol Hu. destruct (csv_keeps_users df) as (df' & Hf & Hc' & Hu').
  cbn [holds_users]. exists df'. split; [exact Hf|].
  split; [by rewrite Hc' | intros _; by rewrite Hu'].
Qed.

Lemma save_results_holds s records record :
  holds_users s records ->
  exists s', save_results s record = Ok s'
    /\ holds_users s' (records ++ [record]).
Proof.
  unfold save_results. destruct s as [f|]; cbn [holds_users].
  - intros (df & Hf & Hcol & _). rewrite Hf. cbn [bind].
    eexists. split; [reflexivity|]. apply written_holds_users.
    + rewrite user_column_concat by reflexivity.
      by rewrite Hcol, map_app.
    + by apply concat_has_user.
  - intros ->. cbn [bind]. eexists. split; [reflexivity|].
    by apply written_holds_users.
Qed.

Lemma save_all_holds records : forall s done,
  holds_users s done ->
  exists s', save_all s records = Ok s'
    /\ holds_users s' (done ++ records).
Proof.
  unfold save_all. induction records as [|r records IH]; intros s done Hs.
  - exists s. by rewrite app_nil_r.
  - destruct (save_results_holds s done r Hs) as (s1 & Hs1 & Hh1).
    destruct (IH s1 (done ++ [r]) Hh1) as (s' & Hs' & Hh').
    exists s'. cbn [for_each]. rewrite Hs1. cbn [bind].
    split; [exact Hs'|]. by rewrite <- app_assoc in Hh'.
Qed.


End UsersKept.

(** ** Appends when the file loads exactly as written *)

Lemma concat_record_rows records record :
  concat {| columns := record_columns; rows := map record_row records |}
         (frame_of_record record)
  = {| columns := record_columns;
       rows := map record_row (records ++ [record]) |}.
Proof.
  unfold concat, reindex. cbn [columns rows frame_of_record].
  change (record_columns ++ List.filter _ record_columns)
    with record_columns.
  f_equal. rewrite map_app, map_map.
  apply (f_equal (fun l => l ++ [record_row record])).
  apply map_ext. intros r. reflexivity.
Qed.

Section ExactCodec.
Context `{CsvCodec}.

Hypothesis csv_round_trip : forall df, read_csv (to_csv df) = Ok df.

(** The table after appends to a new store then holds one row per record,
    in order, cell for cell: [save_results] itself loses nothing. *)
Lemma load_after_appends records : forall done s,
  (match s with
   | None => done = []
   | Some f =>
       read_csv f
       = Ok {| columns := record_columns; rows := map record_row done |}
   end) ->
  done ++ records <> [] ->
  exists f, save_all s records = Ok (Some f)
    /\ read_csv f
       = Ok {| columns := record_columns;
               rows := map record_row (done ++ records) |}.
Proof.
  unfold save_all.
  induction records as [|r records IH]; intros done s Hs Hne.
  - rewrite app_nil_r in *. destruct s as [f|]; [|done].
    exists f. by split.
  - cbn [for_each]. unfold save_results at 1.
    replace (done ++ r :: records) with ((done ++ [r]) ++ records)
      by (by rewrite <- app_assoc).
    destruct s as [f|].
    + rewrite Hs. cbn [bind]. rewrite concat_record_rows.
      apply IH; [apply csv_round_trip | by destruct done].
    + subst done. cbn [bind]. apply (IH [r]); [|done].
      apply csv_round_trip.
Qed.

End ExactCodec.


Lemma get_user_progress_unusable_witness :
  @get_user_progress failing_codec (Some []) (py "alice") = Ok 0%Z.
Proof.
  apply (@get_user_progress_unusable failing_codec (Some []) (py "alice")).
  right. exists []. split; [reflexivity|].
  left. exists EmptyDataError. reflexivity.
Defined.

(** * The rating form *)

(** ** [check_if_all_rated] *)

Lemma all_rated_from_true (ss : gmap str N) keys :
  all_rated_from ss keys = Ok true <->
  forall key, In key keys ->
    exists v, ss !! key = Some v /\ float_is_zero v = false.
Proof.
  induction keys as [|k keys IH]; cbn [all_rated_from].
  - split; [intros _ key [] | reflexivity].
  - unfold session_getitem. destruct (ss !! k) as [v|] eqn:Hk; cbn [bind].
    + destruct (float_is_zero v) eqn:Hz.
      * split; [discriminate|]. intros H.
        destruct (H k (or_introl eq_refl)) as (v' & Hv' & Hz').
        congruence.
      * rewrite IH. split.
        -- intros H key [<-|Hin]; [by exists v | by apply H].
        -- intros H key Hin. apply H. by right.
    + split; [discriminate|]. intros H.
      destruct (H k (or_introl eq_refl)) as (v' & Hv' & _). congruence.
Qed.

Lemma all_rated_from_raise (ss : gmap str N) keys e :
  all_rated_from ss keys = Raise e ->
  e = KeyError /\ exists key, In key keys /\ ss !! key = None.
Proof.
  induction keys as [|k keys IH]; cbn [all_rated_from]; [discriminate|].
  unfold session_getitem. destruct (ss !! k) as [v|] eqn:Hk; cbn [bind].
  - destruct (float_is_zero v); [discriminate|]. intros H.
    destruct (IH H) as (-> & key & Hin & Hkey).
    split; [reflexivity|]. exists key. split; [by right | exact Hkey].
  - intros [= <-]. split; [reflexivity|]. exists k. split; [by left | exact Hk].
Qed.

Lemma all_rated_from_false (ss : gmap str N) keys :
  all_rated_from ss keys = Ok false ->
  exists key v, In key keys /\ ss !! key = Some v /\ float_is_zero v = true.
Proof.
  induction keys as [|k keys IH]; cbn [all_rated_from]; [discriminate|].
  unfold session_getitem. destruct (ss !! k) as [v|] eqn:Hk; cbn [bind].
  - destruct (float_is_zero v) eqn:Hz.
    + intros _. exists k, v. split; [by left | by split].
    + intros H. destruct (IH H) as (key & v' & Hin & Hv).
      exists key, v'. split; [by right | exact Hv].
  - discriminate.
Qed.

(** X1. The validation passes exactly when the session holds a non-zero value
    under each of the four score keys. *)
Theorem check_if_all_rated_true (ss : gmap str N) (prefix : str) :
  check_if_all_rated ss prefix = Ok true <->
  forall key, In key (score_keys prefix) ->
    exists v, ss !! key = Some v /\ float_is_zero v = false.
Proof. apply all_rated_from_true. Qed.

(** X2. The validation raises nothing but [KeyError], and only when one of the
    four score keys is missing from the session. *)
Theorem check_if_all_rated_raise (ss : gmap str N) (prefix : str) (e : exn) :
  check_if_all_rated ss prefix = Raise e ->
  e = KeyError /\ exists key, In key (score_keys prefix) /\ ss !! key = None.
Proof. apply all_rated_from_raise. Qed.

Lemma check_if_all_rated_raise_witness :
  KeyError = KeyError /\
  exists key, In key (score_keys (py "review_0"))
    /\ (∅ : gmap str N) !! key = None.
Proof.
  apply (check_if_all_rated_raise ∅ (py "review_0") KeyError). reflexivity.
Defined.

(** ** [display_rating_form] *)

Lemma input_keys_app a b : input_keys (a ++ b) = input_keys a ++ input_keys b.
Proof. unfold input_keys. apply flat_map_app. Qed.

Lemma input_keys_section rd section_name :
  input_keys (display_section rd section_name) = [].
Proof.
  unfold display_section. destruct (rd !! section_name) as [[|p ps]|];
    try reflexivity.
  cbn [input_keys flat_map app]. induction (p :: ps) as [|x l IH];
    [reflexivity | exact IH].
Qed.

Lemma input_keys_display rd prefix :
  input_keys (display_rating_form rd prefix) =
  [prefix ++ py "_confidence"; prefix ++ py "_constructiveness";
   prefix ++ py "_thoroughness"; prefix ++ py "_helpfulness"].
Proof.
  unfold display_rating_form. rewrite !input_keys_app.
  cbn [flat_map]. rewrite !input_keys_app, !input_keys_section.
  by destruct (rd !! "Summary"%string) as [[|x l]|].
Qed.

Lemma In_input_keys_score_keys rd prefix key :
  In key (input_keys (display_rating_form rd prefix)) <->
  In key (score_keys prefix).
Proof.
  rewrite input_keys_display. unfold score_keys. cbn [In]. tauto.
Qed.

(** X3. The form and its validation agree on the keys: when the session holds a
    value for every number input the form rendered, the validation does not
    raise, and it fails exactly when one of those values is zero. *)
Theorem check_after_display (rd : gmap string (list str))
    (ss : gmap str N) (prefix : str) :
  (forall key, In key (input_keys (display_rating_form rd prefix)) ->
     is_Some (ss !! key)) ->
  exists rated, check_if_all_rated ss prefix = Ok rated
    /\ (rated = false <->
        exists key v, In key (input_keys (display_rating_form rd prefix))
          /\ ss !! key = Some v /\ float_is_zero v = true).
Proof.
  intros Hall.
  destruct (check_if_all_rated ss prefix) as [[|]|e] eqn:E.
  - exists true. split; [reflexivity|]. split; [discriminate|].
    intros (key & v & Hin & Hv & Hz).
    apply In_input_keys_score_keys in Hin.
    destruct (proj1 (all_rated_from_true ss (score_keys prefix)) E key Hin)
      as (v' & Hv' & Hz'). congruence.
  - exists false. split; [reflexivity|]. split; [|reflexivity]. intros _.
    destruct (all_rated_from_false _ _ E) as (key & v & Hin & Hv).
    exists key, v. split; [|exact Hv]. by apply In_input_keys_score_keys.
  - destruct (all_rated_from_raise _ _ _ E) as (_ & key & Hin & Hkey).
    apply (proj2 (In_input_keys_score_keys rd prefix key)) in Hin.
    destruct (Hall key Hin). congruence.
Qed.

(** * More on the parser's output *)

(** ** Every stored string is trimmed and non-empty *)

Lemma lstrip_id s :
  (forall c w, s = c :: w -> isspace c = false) -> lstrip s = s.
Proof.
  destruct s as [|c w]; [reflexivity|]. intros H. simpl.
  by rewrite (H c w eq_refl).
Qed.

Lemma rstrip_prefix s : exists w, s = rstrip s ++ w.
Proof.
  unfold rstrip. destruct (lstrip_suffix (rev s)) as [v Hv].
  exists (rev v). rewrite <- rev_app_distr, <- Hv. by rewrite rev_involutive.
Qed.

Lemma strip_idem s : strip (strip s) = strip s.
Proof.
  unfold strip at 1.
  assert (Hl : lstrip (strip s) = strip s).
  { apply lstrip_id. intros c w Hcw. unfold strip in Hcw.
    destruct (rstrip_prefix (lstrip s)) as [v Hv]. rewrite Hcw in Hv.
    simpl in Hv. by apply (lstrip_head s c (w ++ v)). }
  rewrite Hl. apply rstrip_id, strip_rstripped.
Qed.

Lemma point_of_candidate_stripped cand :
  strip (point_of_candidate cand) = point_of_candidate cand.
Proof.
  unfold point_of_candidate. pose proof (strip_rstripped cand) as Hr.
  destruct (strip cand) as [|h t] eqn:E.
  - reflexivity.
  - cbn [startswith tail]. destruct (HYPHEN =? h); cbn [andb].
    + rewrite <- (strip_after_first h t Hr). apply strip_idem.
    + rewrite <- E. apply strip_idem.
Qed.

Lemma candidates_to_points_trimmed content :
  Forall trimmed (candidates_to_points content).
Proof.
  unfold candidates_to_points. apply List.Forall_forall. intros p Hp.
  apply filter_In in Hp as [Hin Ht]. apply in_map_iff in Hin as (c & <- & _).
  split; [by destruct (point_of_candidate c) | apply point_of_candidate_stripped].
Qed.

Lemma points_in_trimmed sec text : Forall trimmed (points_in sec text).
Proof.
  unfold points_in. destruct (section_content sec text); [|constructor].
  rewrite points_of_eq. apply candidates_to_points_trimmed.
Qed.

Lemma summary_of_trimmed text :
  Forall trimmed (summary_of text) /\ (length (summary_of text) <= 1)%nat.
Proof.
  unfold summary_of. destruct (section_content Summary text) as [c|].
  - destruct (strip c) as [|h t] eqn:E; cbn [truthy length].
    + split; [constructor | lia].
    + split; [|lia]. constructor; [|constructor].
      split; [done|]. rewrite <- E. apply strip_idem.
  - split; [constructor | simpl; lia].
Qed.

(** X4. Whatever the input, every string [parse_review] returns is non-empty
    and has no whitespace at either end, and the summary has at most one
    string. *)
Theorem parse_review_trimmed (v : value) :
  exists d sm st wk qs, parse_review v = Ok d
    /\ d !! "Summary"%string = Some sm
    /\ d !! "Strengths"%string = Some st
    /\ d !! "Weaknesses"%string = Some wk
    /\ d !! "Questions"%string = Some qs
    /\ (length sm <= 1)%nat
    /\ Forall trimmed (sm ++ st ++ wk ++ qs).
Proof.
  destruct (isinstance_str v) eqn:Hv.
  - destruct v; try discriminate. cbn [parse_review].
    destruct (parse_str_lookup s) as (d & Hd & _ & H1 & H2 & H3 & H4).
    exists d, (summary_of s), (points_in Strengths s),
      (points_in Weaknesses s), (points_in Questions s).
    destruct (summary_of_trimmed s) as [Hs Hlen].
    repeat (split; [done|]). rewrite !Forall_app.
    repeat split; try done; apply points_in_trimmed.
  - rewrite (not_str_not_available v Hv).
    destruct not_available_fields as (_ & H1 & H2 & H3 & H4).
    exists not_available, [py "Not Available"], [], [], [].
    repeat (split; [done|]). cbn [app].
    constructor; [|constructor]. split; [done | by vm_compute].
Qed.

(** ** What a point cannot contain *)

Lemma occurs_self_prefix sep post s : sep <> [] ->
  startswith sep ((sep ++ post) ++ s) = false -> False.
Proof.
  intros _ H. rewrite <- app_assoc in H.
  assert (Ht : startswith sep (sep ++ post ++ s) = true).
  { apply startswith_true. by eexists. }
  congruence.
Qed.

Lemma split_go_pieces sep : sep <> [] -> forall s skip cur,
  skip = O \/ cur = [] ->
  (forall u v, rev cur = u ++ v -> v <> [] -> startswith sep (v ++ s) = false) ->
  Forall (fun p => ~ occurs sep p) (split_go sep skip cur s).
Proof.
  intros Hsep. induction s as [|c s IH]; intros skip cur Hmode Hinv.
  - cbn [split_go]. constructor; [|constructor].
    intros (pre & post & Hocc).
    apply (occurs_self_prefix sep post [] Hsep).
    apply (Hinv pre); [exact Hocc | by destruct sep].
  - cbn [split_go]. destruct skip as [|n].
    + destruct (startswith sep (c :: s)) eqn:E.
      * constructor.
        -- intros (pre & post & Hocc).
           apply (occurs_self_prefix sep post (c :: s) Hsep).
           apply (Hinv pre); [exact Hocc | by destruct sep].
        -- apply IH; [by right|]. intros u v Huv Hv. by destruct u, v.
      * apply IH; [by left|]. intros u v Huv Hv.
        destruct (exists_last Hv) as (v0 & x & ->).
        simpl in Huv. rewrite app_assoc in Huv.
        apply app_inj_tail in Huv as [Hcur <-].
        rewrite <- app_assoc. simpl. destruct v0 as [|y v0]; [exact E|].
        by apply (Hinv u).
    + destruct Hmode as [ | -> ]; [discriminate|].
      apply IH; [by right|]. intros u v Huv Hv. by destruct u, v.
Qed.

(** No piece of a split contains the separator. *)
Lemma split_pieces sep s :
  sep <> [] -> Forall (fun p => ~ occurs sep p) (split sep s).
Proof.
  intros Hsep. unfold split. apply split_go_pieces; [exact Hsep | by left|].
  intros u v Huv Hv. by destruct u, v.
Qed.

Lemma occurs_app_l m a b : occurs m b -> occurs m (a ++ b).
Proof.
  intros (u & v & ->). exists (a ++ u), v. by rewrite <- app_assoc.
Qed.

Lemma occurs_app_r m a b : occurs m a -> occurs m (a ++ b).
Proof.
  intros (u & v & ->). exists u, (v ++ b). by rewrite <- !app_assoc.
Qed.

Lemma occurs_lstrip m s : occurs m (lstrip s) -> occurs m s.
Proof.
  destruct (lstrip_suffix s) as [v Hv]. intros H. rewrite Hv.
  by apply occurs_app_l.
Qed.

Lemma occurs_rstrip m s : occurs m (rstrip s) -> occurs m s.
Proof.
  destruct (rstrip_prefix s) as [w Hw]. intros H. rewrite Hw.
  by apply occurs_app_r.
Qed.

Lemma occurs_strip m s : occurs m (strip s) -> occurs m s.
Proof. intros H. by apply occurs_lstrip, occurs_rstrip. Qed.

Lemma occurs_point_of_candidate m cand :
  occurs m (point_of_candidate cand) -> occurs m cand.
Proof.
  unfold point_of_candidate. intros H. apply occurs_strip.
  destruct (strip cand) as [|h t]; [exact H|].
  destruct (startswith [HYPHEN] (h :: t)); [|exact H].
  apply occurs_lstrip in H. by apply (occurs_app_l m [h] t).
Qed.

Lemma candidates_to_points_no_separator content :
  Forall (fun p => ~ occurs [LF; HYPHEN] p) (candidates_to_points content).
Proof.
  unfold candidates_to_points. apply List.Forall_forall. intros p Hp Hocc.
  apply filter_In in Hp as [Hin _]. apply in_map_iff in Hin as (c & <- & Hc).
  apply occurs_point_of_candidate in Hocc.
  pose proof (split_pieces [LF; HYPHEN] content) as Hall.
  rewrite List.Forall_forall in Hall. by apply (Hall ltac:(done) c Hc).
Qed.

Lemma occurs_trans m c s : occurs m c -> occurs c s -> occurs m s.
Proof.
  intros Hm (u & v & ->). by apply occurs_app_l, occurs_app_r.
Qed.

Lemma occurs_join sep pieces c : In c pieces -> occurs c (join sep pieces).
Proof.
  induction pieces as [|q pieces IH]; [done|]. intros Hc. cbn [join].
  destruct pieces as [|q' pieces].
  - destruct Hc as [->|[]]. exists [], []. by rewrite app_nil_r.
  - destruct Hc as [->|Hc].
    + exists [], (sep ++ join sep (q' :: pieces)). reflexivity.
    + apply occurs_app_l, occurs_app_l. by apply IH.
Qed.

Lemma candidates_to_points_within m content :
  ~ occurs m content ->
  Forall (fun p => ~ occurs m p) (candidates_to_points content).
Proof.
  intros Hno. unfold candidates_to_points. apply List.Forall_forall.
  intros p Hp Hocc. apply filter_In in Hp as [Hin _].
  apply in_map_iff in Hin as (c & <- & Hc).
  apply occurs_point_of_candidate in Hocc. apply Hno.
  apply (occurs_trans m c content Hocc).
  rewrite <- (join_split [LF; HYPHEN] content) by done.
  by apply occurs_join.
Qed.

(** X5. No point contains a newline followed by a hyphen: the separator never
    survives into the points of a section. *)
Theorem parse_review_points_no_separator (text : str) :
  exists d st wk qs, parse_review (VStr text) = Ok d
    /\ d !! "Strengths"%string = Some st
    /\ d !! "Weaknesses"%string = Some wk
    /\ d !! "Questions"%string = Some qs
    /\ Forall (fun p => ~ occurs [LF; HYPHEN] p) (st ++ wk ++ qs).
Proof.
  cbn [parse_review].
  destruct (parse_str_lookup text) as (d & Hd & _ & _ & H2 & H3 & H4).
  exists d, (points_in Strengths text), (points_in Weaknesses text),
    (points_in Questions text).
  repeat (split; [done|]). rewrite !Forall_app.
  assert (Hsec : forall sec,
    Forall (fun p => ~ occurs [LF; HYPHEN] p) (points_in sec text)).
  { intros sec. unfold points_in.
    destruct (section_content sec text); [|constructor].
    rewrite points_of_eq. apply candidates_to_points_no_separator. }
  repeat split; apply Hsec.
Qed.

Lemma span_until_no_marker n s : n <> [] -> ~ occurs n (fst (span_until n s)).
Proof.
  intros Hn (u & v & Hocc).
  assert (Hv : n ++ v <> []) by (by destruct n).
  pose proof (span_until_shortest n s u (n ++ v) Hocc Hv) as Hs.
  exact (occurs_self_prefix n v _ Hn Hs).
Qed.

Lemma section_content_no_next sec nx text c :
  next_section sec = Some nx -> section_content sec text = Some c ->
  ~ occurs (marker nx) c.
Proof.
  intros Hnx. rewrite section_content_eq, Hnx.
  destruct (find_after (marker sec) text) as [post|]; [|discriminate].
  intros [= <-]. apply span_until_no_marker. by destruct nx.
Qed.

(** X6. A section stops short of the marker that follows it in the fixed
    order: no string stored for Summary contains the Strengths marker, none
    for Strengths the Weaknesses marker, none for Weaknesses the Questions
    marker. *)
Theorem section_excludes_next_marker (text : str) (sec nx : section) :
  next_section sec = Some nx ->
  exists d l, parse_review (VStr text) = Ok d
    /\ d !! name sec = Some l
    /\ Forall (fun p => ~ occurs (marker nx) p) l.
Proof.
  intros Hnx. cbn [parse_review].
  destruct (parse_str_lookup text) as (d & Hd & _ & H1 & H2 & H3 & H4).
  assert (Hc : forall c, section_content sec text = Some c ->
                 ~ occurs (marker nx) (strip c)).
  { intros c Hc Hocc. apply occurs_strip in Hocc.
    by apply (section_content_no_next sec nx text c). }
  exists d.
  destruct sec; try discriminate; cbn [name];
    eexists; (split; [exact Hd|]); (split; [eassumption|]).
  - unfold summary_of. destruct (section_content Summary text) as [c|];
      [|constructor].
    destruct (truthy (strip c)); constructor; [by apply Hc | constructor].
  - unfold points_in. destruct (section_content Strengths text) as [c|];
      [|constructor].
    rewrite points_of_eq. by apply candidates_to_points_within, Hc.
  - unfold points_in. destruct (section_content Weaknesses text) as [c|];
      [|constructor].
    rewrite points_of_eq. by apply candidates_to_points_within, Hc.
Qed.

Lemma section_excludes_next_marker_witness :
  exists d l, parse_review (VStr example_review) = Ok d
    /\ d !! "Strengths"%string = Some l
    /\ Forall (fun p => ~ occurs (py "**Weaknesses**") p) l.
Proof.
  apply (section_excludes_next_marker example_review Strengths Weaknesses).
  reflexivity.
Defined.

(** * From the rendered bullets back to the points *)

Lemma split_go_piece sep p : forall s cur,
  (forall u v, p = u ++ v -> v <> [] -> startswith sep (v ++ s) = false) ->
  split_go sep O cur (p ++ s) = split_go sep O (rev p ++ cur) s.
Proof.
  induction p as [|x p IH]; intros s cur Hno; [reflexivity|].
  pose proof (Hno [] (x :: p) eq_refl ltac:(done)) as Hx.
  cbn [app] in *. cbn [split_go]. rewrite Hx, IH.
  - cbn [rev]. by rewrite <- app_assoc.
  - intros u v -> Hv. apply (Hno (x :: u) v); done.
Qed.

Lemma no_inner_match p rest u v :
  ~ occurs [LF; HYPHEN] p -> p = u ++ v -> v <> [] ->
  startswith [LF; HYPHEN] (v ++ LF :: HYPHEN :: rest) = false
  /\ startswith [LF; HYPHEN] (v ++ []) = false.
Proof.
  intros Hno -> Hv. destruct v as [|x [|y v]]; [done| |].
  - cbn [app startswith]. change (HYPHEN =? LF) with false. cbn [andb].
    by rewrite !andb_false_r.
  - assert (Hxy : (LF =? x) && (HYPHEN =? y) = false).
    { destruct (N.eqb_spec LF x) as [<-|]; [|done].
      destruct (N.eqb_spec HYPHEN y) as [<-|]; [|done].
      exfalso. apply Hno. by exists u, v. }
    cbn [startswith app]. rewrite !andb_true_r.
    by rewrite Hxy.
Qed.

(** Splitting what was joined gives the pieces back, when no piece holds
    the separator. *)
Lemma split_join pieces :
  pieces <> [] -> Forall (fun p => ~ occurs [LF; HYPHEN] p) pieces ->
  split [LF; HYPHEN] (join [LF; HYPHEN] pieces) = pieces.
Proof.
  unfold split. induction pieces as [|p pieces IH]; [done|].
  intros _ Hall. inversion Hall as [|? ? Hp Hps]; subst. cbn [join].
  destruct pieces as [|q pieces].
  - rewrite <- (app_nil_r p) at 1. rewrite split_go_piece.
    + cbn [split_go]. by rewrite app_nil_r, rev_involutive.
    + intros u v Huv Hv. by apply (no_inner_match p [] u v).
  - rewrite split_go_piece.
    + cbn [app split_go startswith]. rewrite !N.eqb_refl. cbn [andb].
      rewrite app_nil_r, rev_involutive. f_equal. by apply IH.
    + intros u v Huv Hv. by apply (no_inner_match p _ u v).
Qed.

Lemma join_bullets_hyphen q ps :
  join [LF] (map bullet (q :: ps)) =
  HYPHEN :: join [LF; HYPHEN] (map (cons 32) (q :: ps)).
Proof.
  revert q. induction ps as [|r ps IH]; intros q; [reflexivity|].
  change (join [LF] (map bullet (q :: r :: ps)))
    with (bullet q ++ [LF] ++ join [LF] (map bullet (r :: ps))).
  rewrite IH. reflexivity.
Qed.

Lemma join_bullets p ps :
  join [LF] (map bullet (p :: ps)) =
  join [LF; HYPHEN] (bullet p :: map (cons 32) ps).
Proof.
  destruct ps as [|q ps]; [reflexivity|].
  change (join [LF] (map bullet (p :: q :: ps)))
    with (bullet p ++ [LF] ++ join [LF] (map bullet (q :: ps))).
  rewrite join_bullets_hyphen. reflexivity.
Qed.

Lemma occurs_cons_other m0 m x s :
  m0 <> x -> occurs (m0 :: m) (x :: s) -> occurs (m0 :: m) s.
Proof.
  intros Hne ([|y u] & v & H); simpl in H; [congruence|].
  injection H as _ ->. by exists u, v.
Qed.

Lemma lstrip_strip s : lstrip (strip s) = strip s.
Proof.
  apply lstrip_id. intros c w Hcw. unfold strip in Hcw.
  destruct (rstrip_prefix (lstrip s)) as [v Hv]. rewrite Hcw in Hv.
  simpl in Hv. by apply (lstrip_head s c (w ++ v)).
Qed.

Lemma rstripped_app a p : p <> [] -> rstripped p -> rstripped (a ++ p).
Proof.
  intros Hp Hr u c Huc. destruct (exists_last Hp) as (q & x & ->).
  rewrite app_assoc in Huc. apply app_inj_tail in Huc as [_ <-].
  by apply (Hr q).
Qed.

Lemma trimmed_lstrip p : trimmed p -> lstrip p = p.
Proof. intros [_ <-]. apply lstrip_strip. Qed.

Lemma trimmed_rstripped p : trimmed p -> rstripped p.
Proof. intros [_ <-]. apply strip_rstripped. Qed.

Lemma point_of_bullet p : trimmed p -> point_of_candidate (bullet p) = p.
Proof.
  intros Hp. unfold point_of_candidate, bullet.
  assert (Hs : strip (py "- " ++ p) = py "- " ++ p).
  { unfold strip. change (lstrip (py "- " ++ p)) with (py "- " ++ p).
    apply rstrip_id, rstripped_app; [apply Hp | by apply trimmed_rstripped]. }
  rewrite Hs. change (lstrip (tail (py "- " ++ p))) with (lstrip p).
  change (startswith [HYPHEN] (py "- " ++ p)) with true.
  by apply trimmed_lstrip.
Qed.

Lemma point_of_indented p :
  trimmed p -> startswith [HYPHEN] p = false ->
  point_of_candidate (32 :: p) = p.
Proof.
  intros Hp Hh. unfold point_of_candidate.
  change (strip (32 :: p)) with (strip p). destruct Hp as [_ ->].
  by rewrite Hh.
Qed.

Lemma join_rstripped sep pieces :
  pieces <> [] -> Forall (fun p => p <> [] /\ rstripped p) pieces ->
  join sep pieces <> [] /\ rstripped (join sep pieces).
Proof.
  induction pieces as [|p pieces IH]; [done|]. intros _ Hall.
  inversion Hall as [|? ? [Hp Hr] Hps]; subst. cbn [join].
  destruct pieces as [|q pieces]; [done|].
  destruct (IH ltac:(done) Hps) as [Hne Hrs]. split.
  - by destruct p.
  - rewrite app_assoc. by apply rstripped_app.
Qed.

Lemma bullets_points ps :
  Forall trimmed ps ->
  Forall (fun p => ~ occurs [LF; HYPHEN] p) ps ->
  Forall (fun p => startswith [HYPHEN] p = false) (tail ps) ->
  candidates_to_points (strip (LF :: join [LF] (map bullet ps))) = ps.
Proof.
  destruct ps as [|p ps]; [reflexivity|]. intros Ht Hsep Hh.
  rewrite join_bullets. cbn [tail] in Hh.
  inversion Ht as [|? ? Htp Htps]; subst.
  inversion Hsep as [|? ? Hsp Hsps]; subst.
  set (pieces := bullet p :: map (cons 32) ps).
  assert (Hr : Forall (fun q => q <> [] /\ rstripped q) pieces).
  { constructor.
    - split; [done|]. apply rstripped_app; [apply Htp|].
      by apply trimmed_rstripped.
    - apply List.Forall_forall. intros q Hq.
      apply in_map_iff in Hq as (q0 & <- & Hq0). split; [done|].
      rewrite List.Forall_forall in Htps.
      apply (rstripped_app [32]); [apply (Htps q0 Hq0)|].
      by apply trimmed_rstripped, Htps. }
  assert (Hstrip : strip (LF :: join [LF; HYPHEN] pieces)
                   = join [LF; HYPHEN] pieces).
  { unfold strip.
    change (lstrip (LF :: join [LF; HYPHEN] pieces))
      with (lstrip (join [LF; HYPHEN] pieces)).
    rewrite lstrip_id.
    - apply rstrip_id. by apply (join_rstripped [LF; HYPHEN] pieces).
    - intros c w Hcw. unfold pieces in Hcw. cbn [join] in Hcw.
      destruct (map (cons 32) ps); injection Hcw as <- _; reflexivity. }
  rewrite Hstrip. unfold candidates_to_points. rewrite split_join; [|done|].
  - unfold pieces. cbn [map]. rewrite (point_of_bullet p Htp).
    cbn [List.filter]. replace (truthy p) with true
      by (destruct Htp as [Hne _]; by destruct p).
    f_equal. clear -Htps Hh. induction ps as [|q ps IH]; [reflexivity|].
    inversion Htps as [|? ? Hq Hqs]; subst.
    inversion Hh as [|? ? Hhq Hhqs]; subst.
    cbn [map List.filter]. rewrite (point_of_indented q Hq Hhq).
    replace (truthy q) with true by (destruct Hq as [Hne _]; by destruct q).
    f_equal. by apply IH.
  - constructor.
    + intros Hocc. apply Hsp.
      apply (occurs_cons_other LF [HYPHEN] 32); [done|].
      by apply (occurs_cons_other LF [HYPHEN] 45).
    + apply List.Forall_forall. intros q Hq Hocc.
      apply in_map_iff in Hq as (q0 & <- & Hq0).
      rewrite List.Forall_forall in Hsps. apply (Hsps q0 Hq0).
      by apply (occurs_cons_other LF [HYPHEN] 32).
Qed.

Lemma find_after_here m s : find_after m (m ++ s) = Some s.
Proof. destruct (m ++ s) eqn:E; cbn [find_after]; rewrite <- E, eat_app; done. Qed.

Lemma occurs_In m s x : occurs m s -> In x m -> In x s.
Proof.
  intros (u & v & ->) Hx. apply in_or_app. right. apply in_or_app. by left.
Qed.

Lemma In_join x sep pieces :
  In x (join sep pieces) -> In x sep \/ exists p, In p pieces /\ In x p.
Proof.
  induction pieces as [|p pieces IH]; [done|]. cbn [join].
  destruct pieces as [|q pieces].
  - intros H. right. exists p. split; [by left | exact H].
  - intros H. apply in_app_or in H as [H|H].
    + right. exists p. split; [by left | exact H].
    + apply in_app_or in H as [H|H]; [by left|].
      destruct (IH H) as [Hs|(p' & Hp' & Hx)]; [by left|].
      right. exists p'. split; [by right | exact Hx].
Qed.

Lemma display_section_text (rd : gmap string (list str)) sec p ps :
  rd !! name sec = Some (p :: ps) ->
  join [LF] (markdown_bodies (display_section rd (name sec)))
  = marker sec ++ LF :: join [LF] (map bullet (p :: ps)).
Proof.
  intros Hrd. unfold display_section. rewrite Hrd.
  assert (Hb : forall l, markdown_bodies (map (fun point => Markdown (bullet point)) l)
                         = map bullet l).
  { induction l as [|x l IH]; [reflexivity|]. cbn. f_equal. exact IH. }
  change (markdown_bodies (?h :: ?t)) with (marker sec :: markdown_bodies t).
  rewrite Hb. reflexivity.
Qed.

Lemma occurs_across c m a b :
  ~ In c m -> occurs m (a ++ c :: b) -> occurs m a \/ occurs m b.
Proof.
  intros Hc (u & v & H). apply app_eq_app in H as [l [[-> H]|[-> H]]].
  - symmetry in H. apply app_eq_app in H as [l2 [[-> H]|[-> H]]].
    + left. by exists u, l2.
    + destruct l2 as [|x l2].
      * left. exists u, []. by rewrite !app_nil_r.
      * injection H as <- _. exfalso. apply Hc, in_or_app. right. by left.
  - destruct l as [|x l].
    + destruct m as [|x m].
      * left. exists a, []. by rewrite app_nil_r.
      * injection H as <- _. exfalso. apply Hc. by left.
    + injection H as _ ->. right. by exists l, v.
Qed.

Lemma occurs_join_lines m lines :
  m <> [] -> ~ In LF m -> occurs m (join [LF] lines) ->
  exists line, In line lines /\ occurs m line.
Proof.
  intros Hm Hlf. induction lines as [|p lines IH]; cbn [join].
  - intros ([|] & v & H); destruct m; done.
  - destruct lines as [|q lines].
    + intros H. exists p. split; [by left | exact H].
    + intros H. apply (occurs_across LF) in H as [H|H]; [ | | exact Hlf].
      * exists p. split; [by left | exact H].
      * destruct (IH H) as (line & Hin & Hocc).
        exists line. split; [by right | exact Hocc].
Qed.

(** X7. What the form shows for a section, read back as text, parses into the
    same points: the heading and the bulleted lines of Strengths, Weaknesses
    or Questions give back the list they were rendered from, provided the
    points are trimmed, hold no newline-hyphen and not the next marker, and
    none but the first starts with a hyphen. *)
Theorem displayed_section_parses_back (rd : gmap string (list str))
    (sec : section) (ps : list str) :
  sec <> Summary ->
  rd !! name sec = Some ps ->
  Forall trimmed ps ->
  Forall (fun p => ~ occurs [LF; HYPHEN] p) ps ->
  (forall nx, next_section sec = Some nx ->
     Forall (fun p => ~ occurs (marker nx) p) ps) ->
  Forall (fun p => startswith [HYPHEN] p = false) (tail ps) ->
  exists d,
    parse_review
      (VStr (join [LF] (markdown_bodies (display_section rd (name sec)))))
    = Ok d
    /\ d !! name sec = Some ps.
Proof.
  intros Hsec Hrd Ht Hsep Hnext Hh. cbn [parse_review].
  set (text := join [LF] (markdown_bodies (display_section rd (name sec)))).
  destruct (parse_str_lookup text) as (d & Hd & _ & _ & H2 & H3 & H4).
  exists d. split; [exact Hd|].
  rewrite (lookup_name_points d text sec Hsec H2 H3 H4).
  destruct ps as [|p ps].
  { assert (Htext : text = []).
    { unfold text, display_section. by rewrite Hrd. }
    rewrite Htext. by destruct sec. }
  assert (Htext : text = marker sec ++ LF :: join [LF] (map bullet (p :: ps))).
  { by apply display_section_text. }
  unfold points_in. rewrite section_content_eq, Htext, find_after_here.
  assert (Hcontent :
    match next_section sec with
    | Some nx =>
        fst (span_until (marker nx) (LF :: join [LF] (map bullet (p :: ps))))
    | None => LF :: join [LF] (map bullet (p :: ps))
    end = LF :: join [LF] (map bullet (p :: ps))).
  { destruct (next_section sec) as [nx|] eqn:Hnx; [|reflexivity].
    rewrite span_until_absent; [reflexivity|]. intros Hocc.
    assert (Hstar : forall x s, x <> 42 -> occurs (marker nx) (x :: s) ->
                      occurs (marker nx) s).
    { intros x s Hx. destruct nx; by apply occurs_cons_other. }
    apply Hstar in Hocc; [|done].
    apply occurs_join_lines in Hocc as (line & Hin & Hline);
      [|by destruct nx|by destruct nx; vm_compute; intuition discriminate].
    apply in_map_iff in Hin as (q & <- & Hq).
    apply Hstar in Hline; [|done]. apply Hstar in Hline; [|done].
    specialize (Hnext nx eq_refl). rewrite List.Forall_forall in Hnext.
    by apply (Hnext q Hq). }
  rewrite Hcontent, points_of_eq. f_equal. by apply bullets_points.
Qed.

(** * Submitting and resuming *)

Lemma get_cell_missing cols row c : ~ In c cols -> get_cell cols row c = CNaN.
Proof.
  revert row. induction cols as [|k cols IH]; intros row Hc; [by destruct row|].
  destruct row as [|x row]; [reflexivity|]. cbn [get_cell].
  destruct (String.eqb_spec k c) as [->|_].
  - exfalso. apply Hc. by left.
  - apply IH. intros H. apply Hc. by right.
Qed.

Lemma user_column_missing u df :
  has_column df "user" = false ->
  List.filter (cell_eq_str u) (user_column df) = [].
Proof.
  intros Hc. unfold user_column.
  assert (Hno : ~ In "user"%string (columns df)).
  { intros H. apply has_column_In in H. congruence. }
  induction (rows df) as [|row l IH]; [reflexivity|].
  cbn [map List.filter]. by rewrite (get_cell_missing _ _ _ Hno).
Qed.

Lemma user_column_record record :
  user_column (frame_of_record record) = [CStr (user record)].
Proof. reflexivity. Qed.

Section Reading.
Context `{CsvCodec}.

(** Whatever table the file loads as, the count is the number of cells of
    its user column equal to the user. *)
Lemma get_user_progress_reads f df u :
  read_csv f = Ok df ->
  get_user_progress (Some f) u
  = Ok (Z.of_nat (length (List.filter (cell_eq_str u) (user_column df)))).
Proof.
  intros Hf. destruct (has_column df "user") eqn:Hc.
  - by apply get_user_progress_count.
  - rewrite (user_column_missing u df Hc).
    unfold get_user_progress. rewrite Hf. cbn [bind try_except].
    destruct (df_empty df); [reflexivity|]. unfold getcol. by rewrite Hc.
Qed.

(** X9. The count never raises and is never negative, whatever the reader
    does with the file. *)
Theorem get_user_progress_total (s : store) (u : str) :
  exists n, get_user_progress s u = Ok n /\ (0 <= n)%Z.
Proof.
  unfold get_user_progress. destruct s as [f|]; [|by exists 0%Z].
  destruct (read_csv f) as [df|e]; cbn [bind try_except].
  - destruct (df_empty df); [by exists 0%Z|].
    destruct (getcol df "user"); cbn [bind try_except].
    + eexists. split; [reflexivity | lia].
    + destruct e; by exists 0%Z.
  - destruct e; by exists 0%Z.
Qed.

End Reading.

Section Flow.
Context `{CsvCodec}.

Hypothesis csv_keeps_users : forall df,
  exists df', read_csv (to_csv df) = Ok df'
    /\ user_column df' = user_column df
    /\ has_column df' "user" = has_column df "user".

Lemma written_count df u :
  get_user_progress (Some (to_csv df)) u
  = Ok (Z.of_nat (length (List.filter (cell_eq_str u) (user_column df)))).
Proof.
  destruct (csv_keeps_users df) as (df' & Hf & Hcol & _).
  by rewrite (get_user_progress_reads _ df' u Hf), Hcol.
Qed.

Lemma save_results_count (s s' : store) (record : RatingRecord)
    (u : str) (n : Z) :
  save_results s record = Ok s' ->
  get_user_progress s u = Ok n ->
  get_user_progress s' u
  = Ok (n + if bool_decide (user record = u) then 1 else 0)%Z.
Proof.
  unfold save_results. destruct s as [f|].
  - destruct (read_csv f) as [df|e] eqn:Hf; cbn [bind]; [|discriminate].
    intros [= <-]. rewrite (get_user_progress_reads f df u Hf).
    intros [= <-]. rewrite written_count.
    rewrite user_column_concat by reflexivity.
    rewrite List.filter_app, length_app, Nat2Z.inj_add.
    rewrite user_column_record. cbn [List.filter cell_eq_str].
    by destruct (bool_decide (user record = u)).
  - cbn [bind]. intros [= <-] [= <-]. rewrite written_count.
    rewrite user_column_record. cbn [List.filter cell_eq_str].
    by destruct (bool_decide (user record = u)).
Qed.

(** X10. An append that succeeds raises the count of the record's user by
    exactly one and leaves every other user's count as it was, whatever the
    store held before. *)
Theorem save_results_counts_one (s s' : store) (record : RatingRecord)
    (u : str) (n : Z) :
  save_results s record = Ok s' ->
  get_user_progress s u = Ok n ->
  get_user_progress s' u
  = Ok (n + if bool_decide (user record = u) then 1 else 0)%Z.
Proof. apply save_results_count. Qed.

Lemma on_submit_inv ss i (s : store) now su pid rt s' i' :
  on_submit ss i s now su pid rt = Ok (Saved s' i') ->
  i' = i + 1 /\
  exists c t k h,
    let prefix := review_key_prefix_of i in
    ss !! (prefix ++ py "_confidence" : str) = Some c
    /\ ss !! (prefix ++ py "_thoroughness" : str) = Some t
    /\ ss !! (prefix ++ py "_constructiveness" : str) = Some k
    /\ ss !! (prefix ++ py "_helpfulness" : str) = Some h
    /\ Forall (fun v => float_is_zero v = false) [c; t; k; h]
    /\ save_results s
         {| timestamp := now; user := su; paper_id := pid;
            review_type := rt; reviewer_confidence := c;
            review_thoroughness := t; constructiveness := k;
            helpfulness := h |} = Ok s'.
Proof.
  unfold on_submit.
  destruct (check_if_all_rated ss (review_key_prefix_of i)) as [[|]|e] eqn:E;
    cbn [bind negb]; [|discriminate|discriminate].
  pose proof (proj1 (all_rated_from_true ss _) E) as Hall.
  destruct (Hall _ (or_introl eq_refl)) as (c & Hc & Hzc).
  destruct (Hall _ (or_intror (or_introl eq_refl))) as (t & Ht & Hzt).
  destruct (Hall _ (or_intror (or_intror (or_introl eq_refl))))
    as (k & Hk & Hzk).
  destruct (Hall _ (or_intror (or_intror (or_intror (or_introl eq_refl)))))
    as (h & Hh & Hzh).
  unfold session_getitem. rewrite Hc, Ht, Hk, Hh. cbn [bind].
  destruct (save_results s _) as [s1|e] eqn:Hs; cbn [bind]; [|discriminate].
  intros Heq. inversion Heq; subst. split; [reflexivity|].
  exists c, t, k, h. cbn zeta. do 4 (split; [done|]).
  split; [|exact Hs]. by repeat constructor.
Qed.

(** X12. A rating is written only from four non-zero scores: when the submit
    handler saves, the index moves on by one and the stored record is the
    one built from the clock, the user, the review at hand and the four
    session values, none of which is zero. *)
Theorem on_submit_saved ss i (s : store) now su pid rt s' i' :
  on_submit ss i s now su pid rt = Ok (Saved s' i') ->
  i' = i + 1 /\
  exists c t k h,
    let prefix := review_key_prefix_of i in
    ss !! (prefix ++ py "_confidence" : str) = Some c
    /\ ss !! (prefix ++ py "_thoroughness" : str) = Some t
    /\ ss !! (prefix ++ py "_constructiveness" : str) = Some k
    /\ ss !! (prefix ++ py "_helpfulness" : str) = Some h
    /\ Forall (fun v => float_is_zero v = false) [c; t; k; h]
    /\ save_results s
         {| timestamp := now; user := su; paper_id := pid;
            review_type := rt; reviewer_confidence := c;
            review_thoroughness := t; constructiveness := k;
            helpfulness := h |} = Ok s'.
Proof. apply on_submit_inv. Qed.

(** X13. The index and the stored count move together: if the index equals the
    user's stored count before a submit that saves, it equals the stored
    count after it. *)
Theorem on_submit_keeps_in_step ss i (s : store) now su pid rt s' i' :
  on_submit ss i s now su pid rt = Ok (Saved s' i') ->
  get_user_progress s su = Ok (Z.of_N i) ->
  get_user_progress s' su = Ok (Z.of_N i').
Proof.
  intros Hsub Hcount.
  destruct (on_submit_inv _ _ _ _ _ _ _ _ _ Hsub)
    as (-> & c & t & k & h & _ & _ & _ & _ & _ & Hsave).
  rewrite (save_results_count _ _ _ su _ Hsave Hcount). cbn [user].
  rewrite bool_decide_eq_true_2 by reflexivity. f_equal. lia.
Qed.

Lemma current_review_nth queue k :
  current_review queue k =
  match nth_error queue k with
  | Some (p, t) => Review p t
  | None => if truthy queue then AllDone else NoReviews
  end.
Proof.
  unfold current_review. destruct queue as [|q queue]; [by destruct k|].
  cbn [truthy negb]. destruct (Nat.leb_spec (length (q :: queue)) k) as [Hle|Hlt].
  - apply nth_error_None in Hle. by rewrite Hle.
  - by destruct (nth_error (q :: queue) k) as [[p t]|].
Qed.

(** X14. Resuming lands on the first review not yet rated: after any appends to
    a store without records, selecting a user shows the queue entry whose
    position is the number of records appended for that user, the
    completion page when the queue has no such entry, and the no-reviews
    page when the queue is empty. *)
Theorem resume_after_appends (s : store) (records : list RatingRecord)
    (u : str) (queue : list (str * str)) :
  no_records s ->
  exists s', save_all s records = Ok s'
    /\ resume s' u queue
       = Ok match nth_error queue (count_user u records) with
            | Some (p, t) => Review p t
            | None => if truthy queue then AllDone else NoReviews
            end.
Proof.
  intros Hs. apply no_records_holds in Hs.
  destruct (save_all_holds csv_keeps_users records s [] Hs) as (s' & Hs' & Hh).
  exists s'. split; [exact Hs'|]. unfold resume.
  rewrite (holds_users_count s' _ u Hh). cbn [bind].
  by rewrite Nat2Z.id, current_review_nth.
Qed.

End Flow.

Section Unreadable.
Context `{CsvCodec}.

(** X15. When the reader raises on the results file, the count is taken as
    zero, so the first review of the queue is shown, but a fully rated form
    cannot be saved: the submit handler raises what the reader raised. *)
Theorem unreadable_store_blocks_submit f e ss i now su pid rt queue :
  read_csv f = Raise e ->
  check_if_all_rated ss (review_key_prefix_of i) = Ok true ->
  resume (Some f) su queue = Ok (current_review queue 0)
  /\ on_submit ss i (Some f) now su pid rt = Raise e.
Proof.
  intros Hf Hrated. split.
  - unfold resume, get_user_progress. rewrite Hf. cbn [bind try_except].
    by destruct e.
  - unfold on_submit. rewrite Hrated. cbn [bind negb].
    pose proof (proj1 (all_rated_from_true ss _) Hrated) as Hall.
    destruct (Hall _ (or_introl eq_refl)) as (c & Hc & _).
    destruct (Hall _ (or_intror (or_introl eq_refl))) as (t & Ht & _).
    destruct (Hall _ (or_intror (or_intror (or_introl eq_refl))))
      as (k & Hk & _).
    destruct (Hall _ (or_intror (or_intror (or_intror (or_introl eq_refl)))))
      as (h & Hh & _).
    unfold session_getitem. rewrite Hc, Ht, Hk, Hh. cbn [bind].
    unfold save_results. by rewrite Hf.
Qed.

End Unreadable.

(** * A review that is missing or not text *)

Lemma no_star_no_marker sec s : ~ In 42 s -> ~ occurs (marker sec) s.
Proof.
  intros Hs Hocc. apply Hs. apply (occurs_In (marker sec) s 42 Hocc).
  destruct sec; by left.
Qed.

Lemma not_found_text_no_star paper_id review_type :
  ~ In 42 paper_id -> ~ In 42 review_type ->
  ~ In 42 (not_found_text paper_id review_type).
Proof.
  intros Hp Ht. unfold not_found_text. rewrite !in_app_iff.
  intros [H|[H|[H|[H|H]]]]; try done;
    vm_compute in H; intuition discriminate.
Qed.

Lemma parse_str_no_marker text :
  (forall sec, ~ occurs (marker sec) text) ->
  exists d, parse_str text = Ok d
    /\ forall sec, d !! name sec = Some [].
Proof.
  intros Hno.
  destruct (parse_str_lookup text) as (d & Hd & _ & H1 & H2 & H3 & H4).
  exists d. split; [exact Hd|]. intros sec.
  unfold summary_of in H1. unfold points_in in H2, H3, H4.
  rewrite (section_content_absent _ _ (Hno Summary)) in H1.
  rewrite (section_content_absent _ _ (Hno Strengths)) in H2.
  rewrite (section_content_absent _ _ (Hno Weaknesses)) in H3.
  rewrite (section_content_absent _ _ (Hno Questions)) in H4.
  by destruct sec.
Qed.

(** X16. A review that is not in the table is shown as nothing: the lookup
    falls back to a "not found" sentence, which has no section marker when
    the two identifiers hold no asterisk, so every section parses empty and
    the form shows only its rule and rating heading, not the sentence. *)
Theorem missing_review_shows_nothing (all_reviews : gmap str (gmap str value))
    (paper_id review_type prefix : str) :
  (all_reviews !! paper_id = None \/
   exists reviews, all_reviews !! paper_id = Some reviews
     /\ reviews !! review_type = None) ->
  ~ In 42 paper_id -> ~ In 42 review_type ->
  exists d,
    parse_review (lookup_review all_reviews paper_id review_type) = Ok d
    /\ (forall sec, d !! name sec = Some [])
    /\ markdown_bodies (display_rating_form d prefix)
       = [py "---"; py "**Overall Rating**"].
Proof.
  intros Hmiss Hp Ht.
  assert (Hlook : lookup_review all_reviews paper_id review_type
                  = VStr (not_found_text paper_id review_type)).
  { unfold lookup_review.
    destruct Hmiss as [->|(reviews & -> & ->)]; reflexivity. }
  rewrite Hlook. cbn [parse_review].
  destruct (parse_str_no_marker (not_found_text paper_id review_type))
    as (d & Hd & Hempty).
  { intros sec. by apply no_star_no_marker, not_found_text_no_star. }
  exists d. split; [exact Hd|]. split; [exact Hempty|].
  pose proof (Hempty Summary) as E1. pose proof (Hempty Strengths) as E2.
  pose proof (Hempty Weaknesses) as E3. pose proof (Hempty Questions) as E4.
  cbn [name] in E1, E2, E3, E4.
  unfold display_rating_form, display_section. cbn [flat_map].
  rewrite E1, E2, E3, E4. reflexivity.
Qed.

(** X17. A review that is not a string is shown as the summary
    "Not Available", with no other section. *)
Theorem not_str_shows_not_available (v : value) (prefix : str) :
  isinstance_str v = false ->
  exists d, parse_review v = Ok d
    /\ markdown_bodies (display_rating_form d prefix)
       = [py "**Summary**"; py "Not Available"; py "---";
          py "**Overall Rating**"].
Proof.
  intros Hv. exists not_available.
  split; [by apply not_str_not_available | reflexivity].
Qed.

Lemma not_str_shows_not_available_witness :
  exists d, parse_review VNone = Ok d
    /\ markdown_bodies (display_rating_form d (py "review_0"))
       = [py "**Summary**"; py "Not Available"; py "---";
          py "**Overall Rating**"].
Proof.
  apply (not_str_shows_not_available VNone (py "review_0")). reflexivity.
Defined.

(** * Keys of different reviews *)

Lemma py_inj a b : py a = py b -> a = b.
Proof.
  unfold py. revert b. induction a as [|x a IH]; intros [|y b]; try done.
  cbn [list_ascii_of_string map]. intros [= Hxy Hab].
  apply (f_equal ascii_of_N) in Hxy. rewrite !ascii_N_embedding in Hxy.
  subst. f_equal. by apply IH.
Qed.

Lemma str_of_int_inj n m : str_of_int n = str_of_int m -> n = m.
Proof.
  unfold str_of_int. intros H. apply py_inj in H.
  apply Unsigned.to_uint_inj.
  pose proof (NilEmpty.usu (N.to_uint n)) as Hn.
  pose proof (NilEmpty.usu (N.to_uint m)) as Hm.
  rewrite H in Hn. congruence.
Qed.

Lemma digits_no_underscore d :
  ~ In 95 (py (NilEmpty.string_of_uint d)).
Proof.
  induction d; cbn; [intros [] | ..]; (intros [H|H]; [discriminate | by apply IHd]).
Qed.

Lemma app_cons_unique (c : char) d1 d2 r1 r2 :
  ~ In c d1 -> ~ In c d2 -> d1 ++ c :: r1 = d2 ++ c :: r2 -> d1 = d2.
Proof.
  revert d2. induction d1 as [|x d1 IH]; intros [|y d2] H1 H2 H; try done.
  - injection H as <- _. exfalso. apply H2. by left.
  - injection H as -> _. exfalso. apply H1. by left.
  - injection H as -> H. f_equal. apply (IH d2); try done.
    + intros Hc. apply H1. by right.
    + intros Hc. apply H2. by right.
Qed.

(** X18. The score keys of two different review indices never coincide, so a
    value entered for one review is never read for another. *)
Theorem score_keys_fresh (i j : N) (key : str) :
  i <> j ->
  In key (score_keys (review_key_prefix_of i)) ->
  ~ In key (score_keys (review_key_prefix_of j)).
Proof.
  intros Hij Hi Hj. apply Hij, str_of_int_inj.
  unfold score_keys, review_key_prefix_of in Hi, Hj.
  assert (Hshape : forall n suffix,
    key = (py "review_" ++ str_of_int n) ++ 95 :: suffix ->
    exists rest, key = py "review_" ++ str_of_int n ++ 95 :: rest).
  { intros n suffix ->. exists suffix. by rewrite <- app_assoc. }
  assert (Hi' : exists rest, key = py "review_" ++ str_of_int i ++ 95 :: rest).
  { cbn [In] in Hi. destruct Hi as [<-|[<-|[<-|[<-|[]]]]];
      eapply Hshape; reflexivity. }
  assert (Hj' : exists rest, key = py "review_" ++ str_of_int j ++ 95 :: rest).
  { cbn [In] in Hj. destruct Hj as [<-|[<-|[<-|[<-|[]]]]];
      eapply Hshape; reflexivity. }
  destruct Hi' as (ri & ->). destruct Hj' as (rj & Heq).
  apply app_inv_head in Heq.
  apply (app_cons_unique 95 _ _ ri rj); [| |exact Heq];
    apply digits_no_underscore.
Qed.

Lemma score_keys_fresh_witness :
  ~ In (py "review_1_confidence") (score_keys (review_key_prefix_of 12)).
Proof.
  apply (score_keys_fresh 1 12 (py "review_1_confidence")).
  - discriminate.
  - left. reflexivity.
Defined.

(** * Splitting and appending lose nothing *)

(** X8. Joining the pieces of a split with the separator gives the text back:
    the raw points of a section, put together again with newline-hyphen,
    are its content. *)
Theorem split_loses_nothing (sep s : str) :
  sep <> [] -> join sep (split sep s) = s.
Proof. apply join_split. Qed.

Lemma split_loses_nothing_witness :
  join [LF; HYPHEN] (split [LF; HYPHEN] (py "a" ++ [LF; HYPHEN] ++ py " b"))
  = py "a" ++ [LF; HYPHEN] ++ py " b".
Proof. apply (split_loses_nothing [LF; HYPHEN]). discriminate. Defined.

(** X11. If the file loads exactly as it was written, the appends to a new
    store keep one row per record, in the order of the appends, with the
    record's eight cells under the eight column names. *)
Theorem appends_keep_rows `{CsvCodec} (records : list RatingRecord) :
  (forall df, read_csv (to_csv df) = Ok df) ->
  records <> [] ->
  exists f, save_all None records = Ok (Some f)
    /\ read_csv f
       = Ok {| columns := record_columns; rows := map record_row records |}.
Proof.
  intros Hrt Hne. by apply (load_after_appends Hrt records [] None).
Qed.

Lemma appends_keep_rows_witness :
  exists f,
    @save_all table_codec None [rating "alice" "p1"; rating "bob" "p1"]
    = Ok (Some f)
    /\ @read_csv table_codec f
       = Ok {| columns := record_columns;
               rows := map record_row
                         [rating "alice" "p1"; rating "bob" "p1"] |}.
Proof.
  apply (@appends_keep_rows table_codec
           [rating "alice" "p1"; rating "bob" "p1"]).
  - intros df. reflexivity.
  - discriminate.
Defined.

(** * Worked instances *)

Lemma check_after_display_witness :
  exists rated, check_if_all_rated rated_session (py "review_0") = Ok rated
    /\ (rated = false <->
        exists key v,
          In key (input_keys (display_rating_form two_strengths
                                (py "review_0")))
          /\ rated_session !! key = Some v /\ float_is_zero v = true).
Proof.
  apply (check_after_display two_strengths rated_session (py "review_0")).
  intros key Hin. rewrite input_keys_display in Hin. cbn [In] in Hin.
  destruct Hin as [<-|[<-|[<-|[<-|[]]]]]; vm_compute; by eexists.
Defined.

Lemma displayed_section_parses_back_witness :
  exists d,
    parse_review
      (VStr (join [LF]
               (markdown_bodies (display_section two_strengths "Strengths"))))
    = Ok d
    /\ d !! "Strengths"%string
       = Some [py "clear writing"; py "solid experiments"].
Proof.
  apply (displayed_section_parses_back two_strengths Strengths
           [py "clear writing"; py "solid experiments"]).
  - discriminate.
  - reflexivity.
  - repeat constructor; try discriminate; vm_compute; reflexivity.
  - repeat constructor; apply find_after_None; vm_compute; reflexivity.
  - intros nx [= <-].
    repeat constructor; apply find_after_None; vm_compute; reflexivity.
  - repeat constructor.
Defined.

Lemma save_results_counts_one_witness :
  @get_user_progress table_codec
    (Some (frame_of_record (rating "alice" "p1"))) (py "alice")
  = Ok (0 + 1)%Z.
Proof.
  apply (@save_results_counts_one table_codec
           (fun df => ex_intro _ df (conj eq_refl (conj eq_refl eq_refl)))
           None (Some (frame_of_record (rating "alice" "p1")))
           (rating "alice" "p1") (py "alice") 0%Z);
    reflexivity.
Defined.

Lemma on_submit_saved_witness :
  exists c t k h,
    Forall (fun v => float_is_zero v = false) [c; t; k; h]
    /\ @save_results table_codec None
         {| timestamp := py "2025-01-01T10:00:00"; user := py "alice";
            paper_id := py "p1"; review_type := py "human";
            reviewer_confidence := c; review_thoroughness := t;
            constructiveness := k; helpfulness := h |}
       = Ok (Some (frame_of_record
                     {| timestamp := py "2025-01-01T10:00:00";
                        user := py "alice"; paper_id := py "p1";
                        review_type := py "human";
                        reviewer_confidence := 4615063718147915776;
                        review_thoroughness := 4615063718147915776;
                        constructiveness := 4616189618054758400;
                        helpfulness := 4617315517961601024 |})).
Proof.
  destruct (@on_submit_saved table_codec rated_session 0 None
              (py "2025-01-01T10:00:00") (py "alice") (py "p1") (py "human")
              (Some (frame_of_record
                 {| timestamp := py "2025-01-01T10:00:00";
                    user := py "alice"; paper_id := py "p1";
                    review_type := py "human";
                    reviewer_confidence := 4615063718147915776;
                    review_thoroughness := 4615063718147915776;
                    constructiveness := 4616189618054758400;
                    helpfulness := 4617315517961601024 |})) 1)
    as (_ & c & t & k & h & _ & _ & _ & _ & Hz & Hs).
  - vm_compute. reflexivity.
  - exists c, t, k, h. split; [exact Hz | exact Hs].
Defined.

Lemma on_submit_keeps_in_step_witness :
  @get_user_progress table_codec
    (Some (frame_of_record
       {| timestamp := py "2025-01-01T10:00:00";
          user := py "alice"; paper_id := py "p1";
          review_type := py "human";
          reviewer_confidence := 4615063718147915776;
          review_thoroughness := 4615063718147915776;
          constructiveness := 4616189618054758400;
          helpfulness := 4617315517961601024 |})) (py "alice")
  = Ok (Z.of_N 1).
Proof.
  apply (@on_submit_keeps_in_step table_codec
           (fun df => ex_intro _ df (conj eq_refl (conj eq_refl eq_refl)))
           rated_session 0 None (py "2025-01-01T10:00:00")
           (py "alice") (py "p1") (py "human"));
    vm_compute; reflexivity.
Defined.

Lemma resume_after_appends_witness :
  exists s',
    @save_all table_codec None
      [rating "alice" "p1"; rating "bob" "p1"; rating "alice" "p2"] = Ok s'
    /\ @resume table_codec s' (py "alice") three_reviews
       = Ok (Review (py "p3") (py "human")).
Proof.
  apply (@resume_after_appends table_codec
           (fun df => ex_intro _ df (conj eq_refl (conj eq_refl eq_refl)))
           None
           [rating "alice" "p1"; rating "bob" "p1"; rating "alice" "p2"]
           (py "alice") three_reviews).
  left. reflexivity.
Defined.

Lemma unreadable_store_blocks_submit_witness :
  @resume failing_codec (Some []) (py "alice") three_reviews
  = Ok (Review (py "p1") (py "human"))
  /\ @on_submit failing_codec rated_session 0 (Some [])
       (py "2025-01-01T10:00:00") (py "alice") (py "p1") (py "human")
     = Raise EmptyDataError.
Proof.
  apply (@unreadable_store_blocks_submit failing_codec [] EmptyDataError
           rated_session 0 (py "2025-01-01T10:00:00") (py "alice") (py "p1")
           (py "human") three_reviews).
  - reflexivity.
  - vm_compute. reflexivity.
Defined.

Lemma missing_review_shows_nothing_witness :
  exists d,
    parse_review (lookup_review ∅ (py "p1") (py "human")) = Ok d
    /\ (forall sec, d !! name sec = Some [])
    /\ markdown_bodies (display_rating_form d (py "review_0"))
       = [py "---"; py "**Overall Rating**"].
Proof.
  apply (missing_review_shows_nothing ∅ (py "p1") (py "human")
           (py "review_0")).
  - left. reflexivity.
  - vm_compute. intuition discriminate.
  - vm_compute. intuition discriminate.
Defined.

(** * Where a section ends *)

Lemma lookup_name_stored (d : gmap string (list str)) text sec :
  d !! "Summary"%string = Some (summary_of text) ->
  d !! "Strengths"%string = Some (points_in Strengths text) ->
  d !! "Weaknesses"%string = Some (points_in Weaknesses text) ->
  d !! "Questions"%string = Some (points_in Questions text) ->
  d !! name sec
  = Some match section_content sec text with
         | Some content => stored sec content
         | None => []
         end.
Proof.
  unfold summary_of, points_in, stored. by destruct sec.
Qed.

(** C4, as stated, fails: with a summary and weaknesses but no strengths,
    the text up to the next marker that is present would be the summary
    content, but the pattern looks for the Strengths marker only and the
    content runs to the end of the text, Weaknesses included. *)
Lemma next_present_marker_counterexample :
  claimed_content Summary no_strengths_review
  = Some ([LF] ++ py "Good." ++ [LF])
  /\ section_content Summary no_strengths_review
     = Some ([LF] ++ py "Good." ++ [LF] ++ py "**Weaknesses**" ++ [LF]
             ++ py "- too long")
  /\ (exists d, parse_review (VStr no_strengths_review) = Ok d
        /\ d !! "Summary"%string
           = Some [py "Good." ++ [LF] ++ py "**Weaknesses**" ++ [LF]
                   ++ py "- too long"])
  /\ section_content Summary no_strengths_review
     <> claimed_content Summary no_strengths_review.
Proof.
  split; [vm_compute; reflexivity|].
  split; [vm_compute; reflexivity|].
  split.
  - destruct (parse_str_lookup no_strengths_review)
      as (d & Hd & _ & Hs & _).
    exists d. split; [exact Hd|]. etrans; [exact Hs|].
    vm_compute. reflexivity.
  - vm_compute. discriminate.
Qed.

(** C4, amended. [parse_review] stores for each section what it makes of
    the section's content: nothing when the marker does not occur;
    otherwise the content starts right after the leftmost occurrence of the
    marker and ends where the marker that follows it immediately in the
    fixed order first starts after that, or at the end of the text when
    that one marker does not occur there, whatever later markers do
    (Questions always runs to the end); no shorter span ends at that
    marker, and any characters, newlines included, may lie in it. *)
Theorem section_content_span (sec : section) (text : str) :
  exists d, parse_review (VStr text) = Ok d /\
  match section_content sec text with
  | None => ~ occurs (marker sec) text /\ d !! name sec = Some []
  | Some content =>
      d !! name sec = Some (stored sec content) /\
      exists pre tail,
        first_at (marker sec) pre (content ++ tail) text /\
        match next_section sec with
        | None => tail = []
        | Some nx =>
            (tail = [] \/ exists tl, tail = marker nx ++ tl) /\
            (forall c1 c2, content = c1 ++ c2 -> c2 <> [] ->
               forall tl, c2 ++ tail <> marker nx ++ tl) /\
            (tail = [] <-> ~ occurs (marker nx) (content ++ tail)) /\
            (~ occurs (marker nx) text -> tail = [])
        end
  end.
Proof.
  cbn [parse_review].
  destruct (parse_str_lookup text) as (d & Hd & _ & H1 & H2 & H3 & H4).
  exists d. split; [exact Hd|].
  pose proof (lookup_name_stored d text sec H1 H2 H3 H4) as Hsec.
  revert Hsec. rewrite section_content_eq.
  destruct (find_after (marker sec) text) as [post|] eqn:E.
  2:{ intros Hsec. split; [by apply find_after_None | exact Hsec]. }
  intros Hsec. split; [exact Hsec|].
  apply find_after_Some in E as [pre Hfirst].
  destruct (next_section sec) as [nx|] eqn:Hnx.
  - exists pre, (snd (span_until (marker nx) post)).
    rewrite span_until_app. split; [exact Hfirst|].
    assert (Hstop : snd (span_until (marker nx) post) = [] \/
              exists tl, snd (span_until (marker nx) post) = marker nx ++ tl).
    { destruct (span_until_stop (marker nx) post) as [H|H]; [by left|].
      right. by apply startswith_true. }
    assert (Hin : ~ occurs (marker nx) post ->
                  snd (span_until (marker nx) post) = []).
    { intros Hno. destruct Hstop as [H|[tl H]]; [exact H|].
      exfalso. apply Hno.
      exists (fst (span_until (marker nx) post)), tl.
      rewrite <- H. by rewrite span_until_app. }
    split; [exact Hstop|]. split; [|split].
    + intros c1 c2 Hc Hc2 tl Htl.
      pose proof (span_until_shortest _ _ _ _ Hc Hc2) as Hs.
      apply startswith_false in Hs.
      apply (proj1 (eat_None _ _) Hs tl Htl).
    + split; [|exact Hin]. intros Htail Hocc.
      apply (span_until_no_marker (marker nx) post); [by destruct nx|].
      rewrite <- (span_until_app (marker nx) post), Htail, app_nil_r in Hocc.
      exact Hocc.
    + intros Hno. apply Hin. intros Hocc. apply Hno.
      destruct Hfirst as [-> _]. by apply occurs_app_l, occurs_app_l.
  - exists pre, []. by rewrite app_nil_r.
Qed.

(** * A summary that runs over later sections, in general *)








(** * What the file format costs *)





